(** * Bursty traffic generator: burst sources, fragmentation and framing

    A shallow embedding of [burst_generators.py] and [vr_burst_sender.py].

    - Python [int] is [Z] (unbounded); [//] and [%] on a positive divisor are
      [Z.div] and [Z.modulo].
    - Python [float] is the kernel's binary64 type [float]; its arithmetic
      and comparisons are the IEEE 754 ones ([PrimFloat]), linked to their
      bit-level specification by [FloatAxioms].
    - A raised exception is the [Raise] case of [result]; every [raise] site
      of the source has a constructor of its own.
    - [math.log], the numeric core of [math.pow], [int(str)], [float(str)]
      and [random.random()] are not code of the repository: they are section
      variables (or an explicit list of future draws), so every theorem holds
      for whatever the platform computes. *)

From Stdlib Require Import ZArith List Bool Lia String Ascii Floats.
Import ListNotations.

Set Warnings "-inexact-float,-notation-for-abbreviation".

#[local] Open Scope Z_scope.

(** ** Results of fallible code *)

Inductive result (E A : Type) : Type :=
| Ok (a : A)
| Raise (e : E).

Arguments Ok {E A} a.
Arguments Raise {E A} e.

(** Python truth value of an [int]: non-zero. *)
Definition truthy (n : Z) : bool := negb (n =? 0).

(** [sum(xs)] over a list of [int]. *)
Definition zsum (xs : list Z) : Z := fold_right Z.add 0 xs.

(** * Fragmenter ([vr_burst_sender.py], [fragment_burst]) *)

Module Fragmenter.

Definition SEQTS_SIZE_FRAG_HEADER_LEN : Z := 24.

(** One constructor per [raise ValueError] of [fragment_burst]. *)
Inductive error : Set :=
| BurstTooSmall          (* "Burst size must be at least the header size" *)
| FragmentSizeTooSmall   (* "Fragment size must be at least the header size" *)
| SecondToLastTooSmall   (* "Second-to-last fragment would be too small" *)
| LastTooSmall.          (* "Last fragment would be too small" *)

(** The three locals after lines 54-68: the quotient and remainder, the
    reservation of one full fragment, and the merge of a short remainder. *)
Record layout : Set := Layout {
  num_full_frags : Z;
  second_to_last_size : Z;
  last_frag_size : Z
}.

(** Lines 54-60. *)
Definition reserve (burst_size fragment_size : Z) : layout :=
  let num_full_frags := burst_size / fragment_size in
  let last_frag_size := burst_size mod fragment_size in
  if 0 <? num_full_frags
  then Layout (num_full_frags - 1) fragment_size last_frag_size
  else Layout num_full_frags 0 last_frag_size.

(** Lines 62-68. *)
Definition merge (fragment_size : Z) (l : layout) : layout :=
  if (0 <? second_to_last_size l)
     && (0 <? last_frag_size l)
     && (last_frag_size l <? SEQTS_SIZE_FRAG_HEADER_LEN)
  then Layout (num_full_frags l)
              (fragment_size + last_frag_size l - SEQTS_SIZE_FRAG_HEADER_LEN)
              SEQTS_SIZE_FRAG_HEADER_LEN
  else l.

(** Lines 75-81: [[full_payload] * n] is empty for [n <= 0]. *)
Definition payloads (fragment_size : Z) (l : layout) : list Z :=
  let full_payload := fragment_size - SEQTS_SIZE_FRAG_HEADER_LEN in
  repeat full_payload (Z.to_nat (num_full_frags l))
  ++ (if truthy (second_to_last_size l)
      then [second_to_last_size l - SEQTS_SIZE_FRAG_HEADER_LEN] else [])
  ++ (if truthy (last_frag_size l)
      then [last_frag_size l - SEQTS_SIZE_FRAG_HEADER_LEN] else []).

(** [fragment_burst(burst_size, fragment_size)]: the burst payload size and
    the list of fragment payload lengths, or the error raised. *)
Definition fragment_burst (burst_size fragment_size : Z)
  : result error (Z * list Z) :=
  if burst_size <? SEQTS_SIZE_FRAG_HEADER_LEN then Raise BurstTooSmall
  else if fragment_size <? SEQTS_SIZE_FRAG_HEADER_LEN
  then Raise FragmentSizeTooSmall
  else
    let l := merge fragment_size (reserve burst_size fragment_size) in
    if truthy (second_to_last_size l)
       && (second_to_last_size l <? SEQTS_SIZE_FRAG_HEADER_LEN)
    then Raise SecondToLastTooSmall
    else if truthy (last_frag_size l)
            && (last_frag_size l <? SEQTS_SIZE_FRAG_HEADER_LEN)
    then Raise LastTooSmall
    else
      let fragments := payloads fragment_size l in
      let total_frags := Z.of_nat (List.length fragments) in
      let burst_payload :=
        burst_size - SEQTS_SIZE_FRAG_HEADER_LEN * total_frags in
      Ok (burst_payload, fragments).

(** The wire bytes of a layout: full fragments, second-to-last, last. *)
Definition wire_bytes (fragment_size : Z) (l : layout) : Z :=
  num_full_frags l * fragment_size + second_to_last_size l + last_frag_size l.

(** Every fragment but the last one. *)
Definition but_last (xs : list Z) : list Z := removelast xs.

End Fragmenter.

(** * Frame header codec ([vr_burst_sender.py], [build_header]) *)

Module Codec.

(** The format characters of [struct] that the header uses; with the [!]
    prefix sizes are the standard ones and there is no padding. *)
Inductive code : Set :=
| U16   (* H: unsigned short, 2 bytes *)
| U32   (* I: unsigned int, 4 bytes *)
| U64.  (* Q: unsigned long long, 8 bytes *)

Definition code_size (c : code) : nat :=
  match c with U16 => 2 | U32 => 4 | U64 => 8 end%nat.

Definition code_of_ascii (c : ascii) : option code :=
  match c with
  | "H"%char => Some U16
  | "I"%char => Some U32
  | "Q"%char => Some U64
  | _ => None
  end.

Fixpoint codes_of (s : string) : option (list code) :=
  match s with
  | EmptyString => Some []
  | String c rest =>
      match code_of_ascii c, codes_of rest with
      | Some k, Some ks => Some (k :: ks)
      | _, _ => None
      end
  end.

(** [struct.Struct(fmt)] for a network-order ([!]) format. *)
Definition Struct (fmt : string) : option (list code) :=
  match fmt with
  | String "!"%char rest => codes_of rest
  | _ => None
  end.

Definition HEADER_STRUCT : option (list code) := Struct "!HHQIQ".

(** A byte is an integer in [0, 256). [be_bytes n v] is the [n]-byte
    big-endian representation of [v], most significant byte first. *)
Fixpoint be_bytes (n : nat) (v : Z) : list Z :=
  match n with
  | O => []
  | S k => (v / 256 ^ Z.of_nat k) mod 256 :: be_bytes k v
  end.

(** The unsigned integer a big-endian byte string denotes. *)
Definition be_value (bs : list Z) : Z :=
  fold_left (fun acc b => acc * 256 + b) bs 0.

Inductive error : Set :=
| StructError.   (* struct.error: wrong argument count or value out of range *)

(** [Struct.pack] applied to the values: each one must fit its field. *)
Fixpoint pack (codes : list code) (values : list Z) : result error (list Z) :=
  match codes, values with
  | [], [] => Ok []
  | c :: codes', v :: values' =>
      if (0 <=? v) && (v <? 256 ^ Z.of_nat (code_size c))
      then match pack codes' values' with
           | Ok bs => Ok (be_bytes (code_size c) v ++ bs)
           | Raise e => Raise e
           end
      else Raise StructError
  | _, _ => Raise StructError
  end.

(** [build_header]; [timestamp] is what [time.time_ns()] returns. *)
Definition build_header (timestamp : Z)
    (frag_seq total_frags burst_payload burst_seq : Z)
  : result error (list Z * Z) :=
  match HEADER_STRUCT with
  | None => Raise StructError
  | Some codes =>
      match pack codes
              [frag_seq; total_frags; burst_payload; burst_seq; timestamp] with
      | Ok bs => Ok (bs, timestamp)
      | Raise e => Raise e
      end
  end.

(** [bs[off : off + len]]. *)
Definition slice (off len : nat) (bs : list Z) : list Z :=
  firstn len (skipn off bs).

(** The five fields of a header fit their widths. *)
Definition header_in_range
    (timestamp frag_seq total_frags burst_payload burst_seq : Z) : Prop :=
  0 <= frag_seq < 2 ^ 16
  /\ 0 <= total_frags < 2 ^ 16
  /\ 0 <= burst_payload < 2 ^ 64
  /\ 0 <= burst_seq < 2 ^ 32
  /\ 0 <= timestamp < 2 ^ 64.

End Codec.

(** * Trace replay ([burst_generators.py], [TraceFileBurstGenerator]) *)

Module Trace.

#[local] Open Scope float_scope.

(** ** [str.strip] and [str.startswith]

    A [str] is a [string] of code points below 256; [is_space] is
    [str.isspace] on that range. *)
Definition is_space (c : ascii) : bool :=
  let n := nat_of_ascii c in
  ((9 <=? n) && (n <=? 13) || (28 <=? n) && (n <=? 32)
   || (n =? 133) || (n =? 160))%nat.

Fixpoint lstrip (s : string) : string :=
  match s with
  | EmptyString => EmptyString
  | String c rest => if is_space c then lstrip rest else s
  end.

Fixpoint rstrip (s : string) : string :=
  match s with
  | EmptyString => EmptyString
  | String c rest =>
      match rstrip rest with
      | EmptyString => if is_space c then EmptyString else String c EmptyString
      | kept => String c kept
      end
  end.

Definition strip (s : string) : string := rstrip (lstrip s).

Definition startswith (s p : string) : bool := String.prefix p s.

Definition is_empty (s : string) : bool :=
  match s with EmptyString => true | _ => false end.

(** ** The generator and its loader *)

Definition burst : Set := Z * float.

Record TraceFileBurstGenerator : Set := {
  _start_time : float;
  _bursts : list burst;
  _trace_duration : float
}.

(** One constructor per [raise ValueError] of [_load_trace], with the values
    its message is formatted from. *)
Inductive error : Set :=
| InvalidRow (row_num : Z) (row : list string)
| NegativePeriod (row_num : Z) (value : float)
| NoBursts (start_time : float).

(** What lines 56-69 make of one row of the reader. *)
Inductive parsed : Set :=
| Skipped
| Data (burst_size : Z) (period : float)
| Malformed.

Section Loader.

(** [int(s)] and [float(s)] on a stripped column; [None] is [ValueError]. *)
Variable py_int : string -> option Z.
Variable py_float : string -> option float.

Definition parse_row (row : list string) : parsed :=
  match row with
  | [] => Skipped
  | _ :: _ =>
      let stripped_row := map strip row in
      let first := hd EmptyString stripped_row in
      if is_empty first || startswith first "#" then Skipped
      else if forallb is_empty stripped_row then Skipped
      else
        match py_int first with
        | None => Malformed
        | Some burst_size =>
            match nth_error stripped_row 1 with
            | None => Malformed                      (* IndexError *)
            | Some col =>
                match py_float col with
                | None => Malformed
                | Some period => Data burst_size period
                end
            end
        end
  end.

(** The loop state: the local [cumulative_start] and the object. *)
Record loader : Set := {
  cumulative_start : float;
  self : TraceFileBurstGenerator
}.

(** Lines 74-77. *)
Definition account (st : loader) (burst_size : Z) (period : float) : loader :=
  let g := self st in
  let g' :=
    if _start_time g <=? cumulative_start st
    then {| _start_time := _start_time g;
            _bursts := _bursts g ++ [(burst_size, period)];
            _trace_duration := _trace_duration g + period |}
    else g in
  {| cumulative_start := cumulative_start st + period; self := g' |}.

(** One iteration of the [for] loop. *)
Definition load_row (row_num : Z) (row : list string) (st : loader)
  : result error loader :=
  match parse_row row with
  | Skipped => Ok st
  | Malformed => Raise (InvalidRow row_num row)
  | Data burst_size period =>
      if period <? 0 then Raise (NegativePeriod row_num period)
      else Ok (account st burst_size period)
  end.

(** The loop over [enumerate(reader, start=row_num)]. *)
Fixpoint load_rows (row_num : Z) (rows : list (list string)) (st : loader)
  : result error loader :=
  match rows with
  | [] => Ok st
  | row :: rest =>
      match load_row row_num row st with
      | Raise e => Raise e
      | Ok st' => load_rows (row_num + 1) rest st'
      end
  end.

(** [_load_trace] on the rows the csv reader yields. *)
Definition _load_trace (g : TraceFileBurstGenerator) (rows : list (list string))
  : result error TraceFileBurstGenerator :=
  match load_rows 1 rows {| cumulative_start := 0; self := g |} with
  | Raise e => Raise e
  | Ok st =>
      match _bursts (self st) with
      | [] => Raise (NoBursts (_start_time g))
      | _ :: _ => Ok (self st)
      end
  end.

(** [TraceFileBurstGenerator(trace_file, start_time)], the file being given
    by its rows. *)
Definition __init__ (rows : list (list string)) (start_time : float)
  : result error TraceFileBurstGenerator :=
  _load_trace {| _start_time := start_time; _bursts := [];
                 _trace_duration := 0 |} rows.

(** ** The filtering rule in the spec's words *)

(** The data rows of the file, in file order. *)
Definition data_rows (rows : list (list string)) : list burst :=
  flat_map (fun row => match parse_row row with
                       | Data b p => [(b, p)]
                       | _ => []
                       end) rows.

(** A row the loader ignores: a blank row, or one whose first column is,
    once stripped, empty or #-prefixed. *)
Definition comment (row : list string) : bool :=
  match row with
  | [] => true
  | first :: _ => is_empty (strip first) || startswith (strip first) "#"
  end.

(** A row that is not ignored and is malformed: its size is not an integer,
    or its period is missing, not a number, or negative. *)
Definition malformed (row : list string) : bool :=
  negb (comment row)
  && match row with
     | [] => false
     | first :: rest =>
         match py_int (strip first) with
         | None => true
         | Some _ =>
             match rest with
             | [] => true
             | second :: _ =>
                 match py_float (strip second) with
                 | None => true
                 | Some period => period <? 0
                 end
             end
         end
     end.

(** The loader after a sequence of well-formed data rows. *)
Definition account_all (st : loader) (data : list burst) : loader :=
  fold_left (fun st d => account st (fst d) (snd d)) data st.

End Loader.

(** The row number an error message names. *)
Definition error_row_num (e : error) : option Z :=
  match e with
  | InvalidRow row_num _ => Some row_num
  | NegativePeriod row_num _ => Some row_num
  | NoBursts _ => None
  end.

(** Left-to-right floating-point sum starting from [0.0]. *)
Definition fsum (ps : list float) : float := fold_left PrimFloat.add ps 0.

(** The cumulative start time of the data row at index [i]: the sum of the
    periods of all preceding data rows. *)
Definition cumulative_before (data : list burst) (i : nat) : float :=
  fsum (map snd (firstn i data)).

(** The data rows whose cumulative start time is at least [start_time]. *)
Definition retained (start_time : float) (data : list burst) : list burst :=
  map snd
    (filter (fun id => start_time <=? cumulative_before data (fst id))
            (combine (seq 0 (List.length data)) data)).

(** The state in which the loop leaves a fresh generator, as the rule
    gives it. *)
Definition loaded (start_time : float) (data : list burst) : loader :=
  {| cumulative_start := fsum (map snd data);
     self := {| _start_time := start_time;
                _bursts := retained start_time data;
                _trace_duration := fsum (map snd (retained start_time data)) |} |}.

(** ** A decimal instance of [int] and [float]

    [dec_int] and [dec_float] accept an optional sign followed by decimal
    digits (with one point for [dec_float]), of at most 15 digits in all, and
    give them the value Python does: the quotient of two integers below
    [2^53] is correctly rounded. They instantiate the loader on concrete
    files. *)
Definition digit_of (c : ascii) : option Z :=
  let n := nat_of_ascii c in
  if ((48 <=? n) && (n <=? 57))%nat then Some (Z.of_nat n - 48)%Z else None.

Fixpoint digits_value (acc : Z) (s : string) : option Z :=
  match s with
  | EmptyString => Some acc
  | String c rest =>
      match digit_of c with
      | Some d => digits_value (10 * acc + d)%Z rest
      | None => None
      end
  end.

Definition unsigned_int (s : string) : option Z :=
  if is_empty s || (15 <? String.length s)%nat then None
  else digits_value 0%Z s.

Definition split_sign (s : string) : bool * string :=
  match s with
  | String "-"%char rest => (true, rest)
  | String "+"%char rest => (false, rest)
  | _ => (false, s)
  end.

Definition dec_int (s : string) : option Z :=
  let (neg, body) := split_sign s in
  match unsigned_int body with
  | Some n => Some (if neg then (- n)%Z else n)
  | None => None
  end.

Fixpoint split_point (s : string) : option (string * string) :=
  match s with
  | EmptyString => None
  | String "."%char rest => Some (EmptyString, rest)
  | String c rest =>
      match split_point rest with
      | Some (l, r) => Some (String c l, r)
      | None => None
      end
  end.

Definition float_of_Z (n : Z) : float := of_uint63 (Uint63.of_Z n).

Definition dec_float (s : string) : option float :=
  let (neg, body) := split_sign s in
  let magnitude :=
    match split_point body with
    | None =>
        match unsigned_int body with
        | Some n => Some (float_of_Z n)
        | None => None
        end
    | Some (l, r) =>
        match unsigned_int (l ++ r) with
        | Some n => Some (float_of_Z n / float_of_Z (10 ^ Z.of_nat (String.length r)))
        | None => None
        end
    end in
  match magnitude with
  | Some x => Some (if neg then - x else x)
  | None => None
  end.

(** ** Replay: [trace_duration], [has_next_burst], [generate_burst] *)

Inductive replay_error : Set :=
| Exhausted.   (* RuntimeError: "All bursts have been consumed" *)

Definition trace_duration (g : TraceFileBurstGenerator) : float :=
  _trace_duration g.

Definition has_next_burst (g : TraceFileBurstGenerator) : bool :=
  match _bursts g with [] => false | _ :: _ => true end.

(** [generate_burst]: [popleft] on the queue; the generator after the call
    is returned with the burst. *)
Definition generate_burst (g : TraceFileBurstGenerator)
  : result replay_error (burst * TraceFileBurstGenerator) :=
  match _bursts g with
  | [] => Raise Exhausted
  | b :: rest =>
      Ok (b, {| _start_time := _start_time g;
                _bursts := rest;
                _trace_duration := _trace_duration g |})
  end.

(** [n] successive calls of [generate_burst], stopping at the first that
    raises. *)
Fixpoint generate_bursts (n : nat) (g : TraceFileBurstGenerator)
  : result replay_error (list burst * TraceFileBurstGenerator) :=
  match n with
  | O => Ok ([], g)
  | S k =>
      match generate_burst g with
      | Raise e => Raise e
      | Ok (b, g') =>
          match generate_bursts k g' with
          | Raise e => Raise e
          | Ok (bs, g'') => Ok (b :: bs, g'')
          end
      end
  end.

(** [dec_float] extended with the spelling [nan], which [float] accepts. *)
Definition dec_float_nan (s : string) : option float :=
  if String.eqb s "nan" then Some nan else dec_float s.

End Trace.

(** * The statistical source ([burst_generators.py],
      [LogisticRandomVariable] and [VrBurstGenerator]) *)

Module Vr.

#[local] Open Scope float_scope.

Inductive VrAppName : Set :=
| VirusPopper
| Minecraft
| GoogleEarthVrCities
| GoogleEarthVrTour.

Record _VrModelCoefficients : Set := {
  alpha : float;
  beta : float;
  gamma : option float;
  delta : option float;
  epsilon : option float
}.

(** The dictionary [_VR_MODELS]; it has an entry for every [VrAppName]. *)
Definition _VR_MODELS (app : VrAppName) : _VrModelCoefficients :=
  match app with
  | VirusPopper =>
      {| alpha := 0.17843005544386825;
         beta := -0.24033549;
         gamma := Some 0.03720502322046791;
         delta := Some 0.014333111298430356;
         epsilon := Some 0.17636808 |}
  | Minecraft =>
      {| alpha := 0.18570635904452573;
         beta := -0.18721216;
         gamma := Some 0.07132669841811076;
         delta := Some 0.024192743507827373;
         epsilon := Some 0.22666163 |}
  | GoogleEarthVrCities =>
      {| alpha := 0.259684566301378;
         beta := -0.25390119;
         gamma := Some 0.034571656202610615;
         delta := Some 0.008953037116942649;
         epsilon := Some 0.3119082 |}
  | GoogleEarthVrTour =>
      {| alpha := 0.25541435742159037;
         beta := -0.20308171;
         gamma := Some 0.03468230656563422;
         delta := Some 0.010559650431826953;
         epsilon := Some 0.27560183 |}
  end.

(** Exceptions of the [math] module and of [int(float)]. *)
Inductive math_error : Set :=
| MathDomainError    (* ValueError: math domain error *)
| MathRangeError     (* OverflowError: math range error *)
| ZeroDivisionError  (* ZeroDivisionError: float division by zero *)
| IntOfInfinity      (* OverflowError: cannot convert float infinity *)
| IntOfNaN.          (* ValueError: cannot convert float NaN *)

Inductive error : Set :=
| BadFrameRate           (* "Frame rate must be either 30 or 60 FPS" *)
| BadTargetRate          (* "Target data rate must be positive" *)
| MissingGamma (app : VrAppName)
| MissingDeltaEpsilon (app : VrAppName)
| Math (e : math_error)
| AssertionError.

Record LogisticRandomVariable : Set := {
  location : float;
  scale : float;
  bound : float
}.

Definition INFINITE_BOUND : float := 1e307.

(** [LogisticRandomVariable(location, scale, bound)]. *)
Definition mkLogistic (location scale : float) (bound : option float)
  : LogisticRandomVariable :=
  {| location := location;
     scale := scale;
     bound := match bound with Some b => b | None => INFINITE_BOUND end |}.

(** What a call that draws random numbers does: it returns a value and
    leaves the rest of the draws, or raises, or is still looping when the
    given draws are used up. *)
Inductive outcome (A : Type) : Type :=
| Returns (a : A) (rest : list float)
| Raises (e : error)
| Spins.

Arguments Returns {A} a rest.
Arguments Raises {A} e.
Arguments Spins {A}.

(** [max(a, b)] of Python: [b] when [b > a], else [a]. *)
Definition max_int (a b : Z) : Z := if (a <? b)%Z then b else a.
Definition max_float (a b : float) : float := if a <? b then b else a.

Definition is_finite (x : float) : bool := abs x <? infinity.

(** [x / y] on floats: Python raises on a zero divisor, where IEEE 754
    returns an infinity or a NaN. *)
Definition float_div (x y : float) : result math_error float :=
  if y =? 0 then Raise ZeroDivisionError else Ok (x / y).

(** [int(x)] for a float: truncation toward zero of the exact value. *)
Definition int_of_float (x : float) : result math_error Z :=
  match Prim2SF x with
  | S754_zero _ => Ok 0%Z
  | S754_infinity _ => Raise IntOfInfinity
  | S754_nan => Raise IntOfNaN
  | S754_finite s m e =>
      let magnitude :=
        if (0 <=? e)%Z then (Z.pos m * 2 ^ e)%Z
        else (Z.pos m / 2 ^ (- e))%Z in
      Ok (if s then (- magnitude)%Z else magnitude)
  end.

Section Libm.

(** [math.log(x)], and [math.pow(x, y)] where it is left to the platform's
    [pow]; each may raise. *)
Variable math_log : float -> result math_error float.
Variable libm_pow : float -> float -> result math_error float.

(** [math.pow(x, y)]: a zero base with a negative finite exponent is a
    [ValueError] (math domain error) in CPython; every other case is the
    platform's. *)
Definition math_pow (x y : float) : result math_error float :=
  if (x =? 0) && is_finite y && (y <? 0) then Raise MathDomainError
  else libm_pow x y.

(** [LogisticRandomVariable.sample]; [draws] are the values the successive
    calls of [random.random()] return. *)
Fixpoint sample (rv : LogisticRandomVariable) (draws : list float)
  : outcome float :=
  match draws with
  | [] => Spins
  | u :: rest =>
      if (u =? 0) || (u =? 1) then sample rv rest
      else
        match float_div u (1 - u) with
        | Raise e => Raises (Math e)
        | Ok odds =>
            match math_log odds with
            | Raise e => Raises (Math e)
            | Ok l =>
                let candidate := location rv + scale rv * l in
                if abs (candidate - location rv) <=? bound rv
                then Returns candidate rest
                else sample rv rest
            end
        end
  end.

(** [LogisticRandomVariable.sample_int]. *)
Definition sample_int (rv : LogisticRandomVariable) (draws : list float)
  : outcome Z :=
  match sample rv draws with
  | Returns x rest =>
      match int_of_float x with
      | Ok n => Returns n rest
      | Raise e => Raises (Math e)
      end
  | Raises e => Raises e
  | Spins => Spins
  end.

Record VrBurstGenerator : Set := {
  _app : VrAppName;
  _frame_rate : float;
  _target_rate_bps : float;
  _frame_rv : option LogisticRandomVariable;
  _period_rv : option LogisticRandomVariable
}.

(** Sequencing of calls that may raise. *)
Definition bind {A B : Type} (r : result math_error A)
    (k : A -> result error B) : result error B :=
  match r with
  | Ok a => k a
  | Raise e => Raise (Math e)
  end.

Notation "x <- r ;; k" := (bind r (fun x => k))
  (at level 61, r at next level, right associativity).

(** [VrBurstGenerator._setup_model]. The divisors [1e6] and [8.0] are
    non-zero literals, so those divisions cannot raise. *)
Definition _setup_model (g : VrBurstGenerator)
  : result error VrBurstGenerator :=
  let coeffs := _VR_MODELS (_app g) in
  let target_mbps := _target_rate_bps g / 1e6 in
  frame_size_avg <- float_div (_target_rate_bps g / 8) (_frame_rate g) ;;
  ifi_avg <- float_div 1 (_frame_rate g) ;;
  p <- math_pow target_mbps (beta coeffs) ;;
  let frame_dispersion := alpha coeffs * p in
  let frame_scale := frame_size_avg * frame_dispersion in
  let frame_rv :=
    mkLogistic frame_size_avg frame_scale (Some frame_size_avg) in
  let finish (ifi_dispersion : float) :=
    let ifi_scale := ifi_avg * ifi_dispersion in
    {| _app := _app g;
       _frame_rate := _frame_rate g;
       _target_rate_bps := _target_rate_bps g;
       _frame_rv := Some frame_rv;
       _period_rv := Some (mkLogistic ifi_avg ifi_scale (Some ifi_avg)) |} in
  if _frame_rate g =? 60 then
    match gamma coeffs with
    | None => Raise (MissingGamma (_app g))
    | Some ifi_dispersion => Ok (finish ifi_dispersion)
    end
  else
    match delta coeffs, epsilon coeffs with
    | Some d, Some e =>
        q <- math_pow target_mbps e ;;
        Ok (finish (d * q))
    | _, _ => Raise (MissingDeltaEpsilon (_app g))
    end.

(** [VrBurstGenerator(app_name, frame_rate, target_data_rate_bps)]. *)
Definition __init__ (app_name : VrAppName)
    (frame_rate target_data_rate_bps : float)
  : result error VrBurstGenerator :=
  if negb ((frame_rate =? 30) || (frame_rate =? 60)) then Raise BadFrameRate
  else if target_data_rate_bps <=? 0 then Raise BadTargetRate
  else
    _setup_model {| _app := app_name;
                    _frame_rate := frame_rate;
                    _target_rate_bps := target_data_rate_bps;
                    _frame_rv := None;
                    _period_rv := None |}.

(** [VrBurstGenerator.generate_burst]. *)
Definition generate_burst (g : VrBurstGenerator) (draws : list float)
  : outcome (Z * float) :=
  match _frame_rv g, _period_rv g with
  | Some frame_rv, Some period_rv =>
      match sample_int frame_rv draws with
      | Returns n rest =>
          let burst_size := max_int n 24 in
          match sample period_rv rest with
          | Returns x rest' => Returns (burst_size, max_float x 0) rest'
          | Raises e => Raises e
          | Spins => Spins
          end
      | Raises e => Raises e
      | Spins => Spins
      end
  | _, _ => Raises AssertionError
  end.

End Libm.

(** ** An instance of the platform functions

    [ln1] is the first-order expansion of the logarithm at 1 (exact there:
    the logarithm of 1 is 0) and [pow1] is constant; they instantiate the
    section on concrete inputs. *)
Definition ln1 (x : float) : result math_error float :=
  if 0 <? x then Ok (x - 1) else Raise MathDomainError.

Definition pow1 (x y : float) : result math_error float := Ok 1.

(** ** The enumeration by value, and [available_vr_apps] *)

(** [app.value]. *)
Definition value (app : VrAppName) : string :=
  match app with
  | VirusPopper => "VirusPopper"
  | Minecraft => "Minecraft"
  | GoogleEarthVrCities => "GoogleEarthVrCities"
  | GoogleEarthVrTour => "GoogleEarthVrTour"
  end.

(** The members in definition order, as iterating the class yields them. *)
Definition members : list VrAppName :=
  [VirusPopper; Minecraft; GoogleEarthVrCities; GoogleEarthVrTour].

(** [VrAppName(s)]: the member whose value is [s]; [None] is [ValueError]. *)
Definition of_value (s : string) : option VrAppName :=
  find (fun app => String.eqb (value app) s) members.

Definition available_vr_apps : list string := map value members.

(** [VrBurstGenerator.has_next_burst]. *)
Definition has_next_burst (g : VrBurstGenerator) : bool := true.

End Vr.

(** * Signs of binary64 values *)

Module Float754.

(** A value that is not a NaN and is not negative with respect to the
    comparison with zero: a zero of either sign, plus infinity, or a finite
    number with the sign bit clear. *)
Definition sf_nonneg (x : spec_float) : bool :=
  match x with
  | S754_zero _ => true
  | S754_infinity s => negb s
  | S754_nan => false
  | S754_finite s _ _ => negb s
  end.

End Float754.

(** * The sending loop ([vr_burst_sender.py], [main])

    The socket and the standard output are sinks: what the loop does to them
    is recorded as a list of events, in order; [sendto] is taken to accept
    every datagram. The log lines are recorded by the values they are
    formatted from. *)

Module Sender.

#[local] Open Scope Z_scope.

Inductive event : Set :=
| BurstTx (burst_seq burst_payload total_frags timestamp_ns : Z)
    (* log_burst_tx *)
| SendTo (packet : list Z)
    (* sock.sendto(packet, destination) *)
| FragmentTx (frag_seq total_frags burst_seq burst_payload fragment_size
              timestamp_ns : Z)
    (* log_fragment_tx *)
| Sleep (seconds : float).
    (* time.sleep(period) *)

Inductive error : Set :=
| FragmentError (e : Fragmenter.error)   (* raised by fragment_burst *)
| HeaderError (e : Codec.error)          (* raised by build_header *)
| NegativeCount.                         (* ValueError of bytearray(n), n < 0 *)

(** [bytearray(n)]: [n] zero bytes. *)
Definition bytearray (n : Z) : result error (list Z) :=
  if n <? 0 then Raise NegativeCount else Ok (repeat 0 (Z.to_nat n)).

(** A slice bound of Python: a negative index counts from the end, and the
    result is clamped to the sequence. *)
Definition clamp_index (len i : Z) : Z :=
  if i <? 0 then Z.max (i + len) 0 else Z.min i len.

(** [xs[lo:hi]]. *)
Definition py_slice (lo hi : Z) (xs : list Z) : list Z :=
  let len := Z.of_nat (List.length xs) in
  let lo' := clamp_index len lo in
  let hi' := clamp_index len hi in
  firstn (Z.to_nat (hi' - lo')) (skipn (Z.to_nat lo') xs).

(** The 24 bytes of a header, field by field. *)
Definition wire_header
    (timestamp frag_seq total_frags burst_payload burst_seq : Z) : list Z :=
  Codec.be_bytes 2 frag_seq ++ Codec.be_bytes 2 total_frags
  ++ Codec.be_bytes 8 burst_payload ++ Codec.be_bytes 4 burst_seq
  ++ Codec.be_bytes 8 timestamp.

Section Pump.

(** [clock n] is what the call of [time.time_ns()] number [n] returns. *)
Variable clock : nat -> Z.
(** [args.fragment_size] and [args.max_bursts]. *)
Variable fragment_size : Z.
Variable max_bursts : option Z.

(** The [for] loop over [enumerate(fragment_payloads)], from index
    [frag_idx] and offset [offset]; [tick] counts the clock readings. The
    events emitted are returned with the result, also when a header cannot
    be built. *)
Fixpoint send_fragments (total_frags burst_payload burst_seq : Z)
    (payload_buffer : list Z) (frag_idx offset : Z) (tick : nat)
    (fragment_payloads : list Z) : list event * result error nat :=
  match fragment_payloads with
  | [] => ([], Ok tick)
  | payload_len :: rest =>
      let fragment := py_slice offset (offset + payload_len) payload_buffer in
      let offset := offset + payload_len in
      match Codec.build_header (clock tick) frag_idx total_frags
              burst_payload burst_seq with
      | Raise e => ([], Raise (HeaderError e))
      | Ok (header_bytes, frag_timestamp) =>
          let packet := header_bytes ++ fragment in
          let (later, r) :=
            send_fragments total_frags burst_payload burst_seq payload_buffer
              (frag_idx + 1) offset (S tick) rest in
          (SendTo packet
           :: FragmentTx frag_idx total_frags burst_seq burst_payload
                (Z.of_nat (List.length packet)) frag_timestamp
           :: later, r)
      end
  end.

(** The body of the [while] loop for a burst of at least 24 bytes, up to
    the update of the counters. *)
Definition send_burst (burst_size burst_seq : Z) (tick : nat)
  : list event * result error nat :=
  match Fragmenter.fragment_burst burst_size fragment_size with
  | Raise e => ([], Raise (FragmentError e))
  | Ok (burst_payload, fragment_payloads) =>
      let total_frags := Z.of_nat (List.length fragment_payloads) in
      match bytearray burst_payload with
      | Raise e => ([], Raise e)
      | Ok payload_buffer =>
          let burst_log_ts := clock tick in
          let (sent, r) :=
            send_fragments total_frags burst_payload burst_seq payload_buffer
              0 0 (S tick) fragment_payloads in
          (BurstTx burst_seq burst_payload total_frags burst_log_ts :: sent, r)
      end
  end.

(** [args.max_bursts is not None and bursts_sent >= args.max_bursts]. *)
Definition budget_reached (bursts_sent : Z) : bool :=
  match max_bursts with
  | None => false
  | Some m => m <=? bursts_sent
  end.

(** The [while] loop of [main] over a trace generator whose queue is
    [queue]: [has_next_burst] is the queue being non-empty and
    [generate_burst] pops its head. *)
Fixpoint pump (queue : list Trace.burst) (burst_seq bursts_sent : Z)
    (tick : nat) : list event * result error unit :=
  match queue with
  | [] => ([], Ok tt)
  | (burst_size, period) :: rest =>
      if burst_size <? Fragmenter.SEQTS_SIZE_FRAG_HEADER_LEN
      then pump rest burst_seq bursts_sent tick
      else
        match send_burst burst_size burst_seq tick with
        | (sent, Raise e) => (sent, Raise e)
        | (sent, Ok tick') =>
            let burst_seq := burst_seq + 1 in
            let bursts_sent := bursts_sent + 1 in
            if budget_reached bursts_sent then (sent, Ok tt)
            else
              let nap := if (0 <? period)%float then [Sleep period] else [] in
              let (later, r) := pump rest burst_seq bursts_sent tick' in
              (sent ++ nap ++ later, r)
        end
  end.

(** The datagrams of one burst as the wire format describes them: for the
    payload lengths [payloads], numbered from [frag_idx], the 24-byte header
    of the fragment followed by as many zero bytes as its payload length;
    the header of each fragment carries the clock reading taken for it. *)
Fixpoint burst_datagrams (total_frags burst_payload burst_seq : Z)
    (frag_idx : Z) (tick : nat) (payloads : list Z) : list (list Z) :=
  match payloads with
  | [] => []
  | payload_len :: rest =>
      (wire_header (clock tick) frag_idx total_frags burst_payload burst_seq
       ++ repeat 0 (Z.to_nat payload_len))
      :: burst_datagrams total_frags burst_payload burst_seq
           (frag_idx + 1) (S tick) rest
  end.


End Pump.

(** The datagrams of a run, in order. *)
Definition datagrams (events : list event) : list (list Z) :=
  flat_map (fun ev => match ev with SendTo packet => [packet] | _ => [] end)
           events.

(** The sequence numbers of the bursts a run announced, in order. *)
Definition burst_seqs (events : list event) : list Z :=
  flat_map (fun ev => match ev with BurstTx s _ _ _ => [s] | _ => [] end)
           events.

(** The pauses of a run, in order. *)
Definition sleeps (events : list event) : list float :=
  flat_map (fun ev => match ev with Sleep seconds => [seconds] | _ => [] end)
           events.

(** The bytes a run put on the wire. *)
Definition wire_total (events : list event) : Z :=
  zsum (map (fun packet => Z.of_nat (List.length packet)) (datagrams events)).

(** The bursts of a queue that the loop does not skip. *)
Definition eligible (queue : list Trace.burst) : list Trace.burst :=
  filter (fun b => negb (fst b <? Fragmenter.SEQTS_SIZE_FRAG_HEADER_LEN)) queue.

(** A clock that advances by one nanosecond per reading; it instantiates
    the loop on concrete inputs. *)
Definition wall_clock (n : nat) : Z := 1700000000000000000 + Z.of_nat n.

(** [start], [start + 1], ... : as many as [n]. *)
Definition count_from (start : Z) (n : nat) : list Z :=
  map (fun i => start + Z.of_nat i) (seq 0 n).

(** The periods of a queue that are greater than zero. *)
Definition positive_periods (queue : list Trace.burst) : list float :=
  filter (fun period => (0 <? period)%float) (map snd queue).

End Sender.

(** * Properties of the fragmenter *)

Section FragmenterFacts.

Import Fragmenter.

#[local] Open Scope Z_scope.

Lemma zsum_app (xs ys : list Z) : zsum (xs ++ ys) = zsum xs + zsum ys.
Proof.
  unfold zsum. induction xs as [|x xs IH]; simpl; [reflexivity | lia].
Qed.

Lemma zsum_repeat (x : Z) (n : nat) : zsum (repeat x n) = Z.of_nat n * x.
Proof.
  unfold zsum. induction n as [|n IH]; [reflexivity|].
  cbn [repeat fold_right]. rewrite IH. lia.
Qed.

Lemma payloads_wire_bytes (fragment_size : Z) (l : layout) :
  0 <= num_full_frags l ->
  zsum (payloads fragment_size l)
  + SEQTS_SIZE_FRAG_HEADER_LEN * Z.of_nat (List.length (payloads fragment_size l))
  = wire_bytes fragment_size l.
Proof.
  intros Hn. unfold payloads, wire_bytes, truthy, SEQTS_SIZE_FRAG_HEADER_LEN.
  rewrite !zsum_app, !length_app, zsum_repeat, repeat_length.
  rewrite !Nat2Z.inj_add, Z2Nat.id by assumption.
  destruct (second_to_last_size l =? 0) eqn:E2;
    destruct (last_frag_size l =? 0) eqn:E3;
    cbn [negb zsum fold_right List.length];
    rewrite ?Z.eqb_eq in *; lia.
Qed.

(** The layout after lines 54-68, by cases on quotient and remainder. *)
Lemma merged_layout (burst_size fragment_size : Z) :
  merge fragment_size (reserve burst_size fragment_size) =
    let q := burst_size / fragment_size in
    let r := burst_size mod fragment_size in
    if 0 <? q then
      if (0 <? fragment_size) && (0 <? r) && (r <? 24)
      then Layout (q - 1) (fragment_size + r - 24) 24
      else Layout (q - 1) fragment_size r
    else Layout q 0 r.
Proof.
  unfold merge, reserve, SEQTS_SIZE_FRAG_HEADER_LEN. cbv zeta.
  destruct (0 <? burst_size / fragment_size); cbn; reflexivity.
Qed.

Lemma merged_wire_bytes (burst_size fragment_size : Z) :
  0 <= burst_size -> 0 < fragment_size ->
  let l := merge fragment_size (reserve burst_size fragment_size) in
  0 <= num_full_frags l /\ wire_bytes fragment_size l = burst_size.
Proof.
  intros HB HF. rewrite merged_layout. cbv zeta.
  pose proof (Z.div_mod burst_size fragment_size ltac:(lia)) as Hdm.
  pose proof (Z.div_pos burst_size fragment_size HB HF) as Hq.
  unfold wire_bytes.
  destruct (0 <? burst_size / fragment_size) eqn:E;
    [apply Z.ltb_lt in E | apply Z.ltb_ge in E].
  - destruct ((0 <? fragment_size) && (0 <? burst_size mod fragment_size)
              && (burst_size mod fragment_size <? 24)); cbn; split; nia.
  - cbn. split; nia.
Qed.

Lemma fragment_burst_checked (burst_size fragment_size : Z) :
  24 <= burst_size -> 24 <= fragment_size ->
  fragment_burst burst_size fragment_size =
    let l := merge fragment_size (reserve burst_size fragment_size) in
    if truthy (second_to_last_size l) && (second_to_last_size l <? 24)
    then Raise SecondToLastTooSmall
    else if truthy (last_frag_size l) && (last_frag_size l <? 24)
    then Raise LastTooSmall
    else Ok (burst_size - 24 * Z.of_nat (List.length (payloads fragment_size l)),
             payloads fragment_size l).
Proof.
  intros HB HF. unfold fragment_burst, SEQTS_SIZE_FRAG_HEADER_LEN.
  destruct (burst_size <? 24) eqn:E1; [apply Z.ltb_lt in E1; lia|].
  destruct (fragment_size <? 24) eqn:E2; [apply Z.ltb_lt in E2; lia|].
  reflexivity.
Qed.

(** Two results are equal when their components are, up to arithmetic. *)
Ltac same_result :=
  repeat match goal with
         | |- Ok _ = Ok _ => f_equal
         | |- (_, _) = (_, _) => f_equal
         | |- _ ++ _ = _ ++ _ => f_equal
         | |- _ :: _ = _ :: _ => f_equal
         end;
  try reflexivity; try lia.

(** The closed form of [fragment_burst] on admissible sizes, by cases on
    the quotient [q] and the remainder [r]. *)
Lemma fragment_burst_cases (burst_size fragment_size : Z) :
  24 <= burst_size -> 24 <= fragment_size ->
  fragment_burst burst_size fragment_size =
    let q := burst_size / fragment_size in
    let r := burst_size mod fragment_size in
    let full := repeat (fragment_size - 24) (Z.to_nat (q - 1)) in
    if 0 <? q then
      if (0 <? r) && (r <? 24) then
        if fragment_size + r <? 48 then Raise SecondToLastTooSmall
        else Ok (burst_size - 24 * (q + 1),
                 full ++ [fragment_size + r - 48; 0])
      else if r =? 0 then
        Ok (burst_size - 24 * q, full ++ [fragment_size - 24])
      else
        Ok (burst_size - 24 * (q + 1), full ++ [fragment_size - 24; r - 24])
    else Ok (burst_size - 24, [burst_size - 24]).
Proof.
  intros HB HF. rewrite fragment_burst_checked, merged_layout by assumption.
  cbv zeta.
  pose proof (Z.mod_pos_bound burst_size fragment_size ltac:(lia)) as Hr.
  pose proof (Z.div_pos burst_size fragment_size ltac:(lia) ltac:(lia)) as Hq.
  set (q := burst_size / fragment_size) in *.
  set (r := burst_size mod fragment_size) in *.
  assert (Hlen : forall tail : list Z,
             Z.of_nat (List.length
                         (repeat (fragment_size - 24) (Z.to_nat (q - 1)) ++ tail))
             = Z.max 0 (q - 1) + Z.of_nat (List.length tail)).
  { intros tail. rewrite length_app, repeat_length, Nat2Z.inj_add. lia. }
  destruct (0 <? q) eqn:Eq; [apply Z.ltb_lt in Eq | apply Z.ltb_ge in Eq].
  - assert (E0 : (0 <? fragment_size) = true) by (apply Z.ltb_lt; lia).
    rewrite E0. cbn [andb].
    destruct ((0 <? r) && (r <? 24)) eqn:Em.
    + apply andb_true_iff in Em as [Hr0 Hr24].
      apply Z.ltb_lt in Hr0, Hr24.
      unfold payloads, truthy, SEQTS_SIZE_FRAG_HEADER_LEN.
      cbn [num_full_frags second_to_last_size last_frag_size].
      replace (fragment_size + r - 24 =? 0) with false
        by (symmetry; apply Z.eqb_neq; lia).
      cbn [negb andb Z.eqb].
      destruct (fragment_size + r <? 48) eqn:Es;
        [apply Z.ltb_lt in Es | apply Z.ltb_ge in Es].
      * replace (fragment_size + r - 24 <? 24) with true
          by (symmetry; apply Z.ltb_lt; lia).
        reflexivity.
      * replace (fragment_size + r - 24 <? 24) with false
          by (symmetry; apply Z.ltb_ge; lia).
        change (24 <? 24) with false. cbv iota.
        rewrite Hlen. cbn [List.length app]. same_result.
    + unfold payloads, truthy, SEQTS_SIZE_FRAG_HEADER_LEN.
      cbn [num_full_frags second_to_last_size last_frag_size].
      replace (fragment_size =? 0) with false
        by (symmetry; apply Z.eqb_neq; lia).
      replace (fragment_size <? 24) with false
        by (symmetry; apply Z.ltb_ge; lia).
      cbn [negb andb].
      destruct (r =? 0) eqn:Er0; [apply Z.eqb_eq in Er0 | apply Z.eqb_neq in Er0].
      * cbn [negb andb]. rewrite Hlen. cbn [List.length app]. same_result.
      * replace (r <? 24) with false.
        2:{ symmetry. apply Z.ltb_ge.
            apply andb_false_iff in Em as [Em|Em]; apply Z.ltb_ge in Em; lia. }
        cbn [negb andb]. rewrite Hlen. cbn [List.length app]. same_result.
  - assert (q = 0) by lia.
    assert (r = burst_size).
    { pose proof (Z.div_mod burst_size fragment_size ltac:(lia)).
      subst q r. nia. }
    unfold payloads, truthy, SEQTS_SIZE_FRAG_HEADER_LEN.
    cbn [num_full_frags second_to_last_size last_frag_size].
    replace (r =? 0) with false by (symmetry; apply Z.eqb_neq; lia).
    replace (r <? 24) with false by (symmetry; apply Z.ltb_ge; lia).
    replace q with 0 by lia. cbn. same_result.
Qed.

(** C1. Fragmentation conservation: when [fragment_burst] returns on a burst
    size and a fragment size of at least 24, the payload lengths plus 24 bytes
    per fragment add up to the burst size, and the returned burst payload is
    the sum of the payload lengths. *)
Theorem fragment_burst_conservation
    (burst_size fragment_size burst_payload : Z) (fragments : list Z) :
  24 <= burst_size -> 24 <= fragment_size ->
  fragment_burst burst_size fragment_size = Ok (burst_payload, fragments) ->
  zsum fragments + 24 * Z.of_nat (List.length fragments) = burst_size
  /\ burst_payload = zsum fragments.
Proof.
  intros HB HF Hrun. rewrite fragment_burst_checked in Hrun by assumption.
  cbv zeta in Hrun.
  destruct (merged_wire_bytes burst_size fragment_size) as [Hn Hw]; [lia..|].
  pose proof (payloads_wire_bytes fragment_size _ Hn) as Hp.
  unfold SEQTS_SIZE_FRAG_HEADER_LEN in Hp.
  set (l := merge fragment_size (reserve burst_size fragment_size)) in *.
  destruct (truthy (second_to_last_size l) && (second_to_last_size l <? 24));
    [discriminate|].
  destruct (truthy (last_frag_size l) && (last_frag_size l <? 24));
    [discriminate|].
  assert (Hfr : fragments = payloads fragment_size l) by congruence.
  assert (Hbp : burst_payload
                = burst_size - 24 * Z.of_nat (List.length (payloads fragment_size l)))
    by congruence.
  subst fragments. lia.
Qed.

Lemma fragment_burst_conservation_witness :
  exists burst_payload fragments,
    fragment_burst 2500 1200 = Ok (burst_payload, fragments)
    /\ zsum fragments + 24 * Z.of_nat (List.length fragments) = 2500
    /\ burst_payload = zsum fragments.
Proof.
  exists 2428, [1176; 1176; 76]. split; [reflexivity|].
  apply (fragment_burst_conservation 2500 1200 2428 [1176; 1176; 76]);
    [lia | lia | reflexivity].
Defined.

Lemma In_but_last (p : Z) (xs : list Z) : In p (but_last xs) -> In p xs.
Proof.
  unfold but_last. induction xs as [|x xs IH]; [intros []|].
  destruct xs as [|y ys]; [intros []|].
  cbn [removelast]. intros [->|Hin]; [left; reflexivity | right; auto].
Qed.

Lemma but_last_snoc (xs : list Z) (x : Z) : but_last (xs ++ [x]) = xs.
Proof. unfold but_last. apply removelast_last. Qed.

Lemma but_last_snoc2 (xs : list Z) (x y : Z) :
  but_last (xs ++ [x; y]) = xs ++ [x].
Proof.
  change [x; y] with ([x] ++ [y]). rewrite app_assoc. apply but_last_snoc.
Qed.

(** C2, as the spec states it, fails: a burst of 48 bytes with fragments of
    30 bytes is returned as two header-only fragments, so the fragment
    before the final one has zero payload. *)
Lemma fragment_burst_zero_payload_before_last :
  24 <= 48 /\ 24 <= 30
  /\ fragment_burst 48 30 = Ok (0, [0; 0])
  /\ ~ (forall payload, In payload (but_last [0; 0]) -> payload <> 0).
Proof.
  repeat split; try lia.
  intros Hall. apply (Hall 0); [left|]; reflexivity.
Qed.

(** C2, amended. When [fragment_burst] returns on sizes of at least 24, no
    fragment is smaller on the wire than the header (every payload length is
    non-negative), and a fragment other than the final one has zero payload
    only when the fragment size is exactly 24, or when the merged
    second-to-last fragment is exactly header-sized (fragment size plus
    remainder is 48). *)
Theorem fragment_burst_no_undersized
    (burst_size fragment_size burst_payload : Z) (fragments : list Z) :
  24 <= burst_size -> 24 <= fragment_size ->
  fragment_burst burst_size fragment_size = Ok (burst_payload, fragments) ->
  Forall (fun payload => 24 <= payload + 24) fragments
  /\ (forall payload, In payload (but_last fragments) -> payload = 0 ->
      fragment_size = 24
      \/ fragment_size + burst_size mod fragment_size = 48).
Proof.
  intros HB HF Hrun. rewrite fragment_burst_cases in Hrun by assumption.
  cbv zeta in Hrun.
  pose proof (Z.mod_pos_bound burst_size fragment_size ltac:(lia)) as Hr.
  set (q := burst_size / fragment_size) in *.
  set (r := burst_size mod fragment_size) in *.
  set (full := repeat (fragment_size - 24) (Z.to_nat (q - 1))) in *.
  assert (Hfull : forall p, In p full -> p = fragment_size - 24)
    by (intros p Hp; apply repeat_spec in Hp; exact Hp).
  assert (Hall : forall tail : list Z,
             Forall (fun payload => 24 <= payload + 24) tail ->
             Forall (fun payload => 24 <= payload + 24) (full ++ tail)).
  { intros tail Ht. apply Forall_app. split; [|exact Ht].
    apply Forall_forall. intros p Hp. apply Hfull in Hp. lia. }
  destruct (0 <? q).
  - destruct ((0 <? r) && (r <? 24)) eqn:Em.
    + destruct (fragment_size + r <? 48) eqn:Es; [discriminate|].
      apply Z.ltb_ge in Es.
      assert (fragments = full ++ [fragment_size + r - 48; 0]) by congruence.
      subst fragments. split.
      * apply Hall. repeat constructor; lia.
      * intros p Hp Hz. rewrite but_last_snoc2 in Hp.
        apply in_app_or in Hp as [Hp|[Hp|[]]].
        -- apply Hfull in Hp. left. lia.
        -- right. lia.
    + assert (Hr' : r = 0 \/ 24 <= r).
      { apply andb_false_iff in Em as [Em|Em]; apply Z.ltb_ge in Em; lia. }
      destruct (r =? 0) eqn:Er0.
      * assert (fragments = full ++ [fragment_size - 24]) by congruence.
        subst fragments. split.
        -- apply Hall. repeat constructor; lia.
        -- intros p Hp Hz. apply In_but_last in Hp.
           apply in_app_or in Hp as [Hp|[Hp|[]]];
             [apply Hfull in Hp|]; left; lia.
      * assert (fragments = full ++ [fragment_size - 24; r - 24])
          by congruence.
        apply Z.eqb_neq in Er0.
        subst fragments. split.
        -- apply Hall. repeat constructor; lia.
        -- intros p Hp Hz. rewrite but_last_snoc2 in Hp.
           apply in_app_or in Hp as [Hp|[Hp|[]]];
             [apply Hfull in Hp|]; left; lia.
  - assert (fragments = [burst_size - 24]) by congruence.
    subst fragments. split.
    + repeat constructor; lia.
    + intros p [].
Qed.

Lemma fragment_burst_no_undersized_witness :
  Forall (fun payload => 24 <= payload + 24) [1176; 0]
  /\ (forall payload, In payload (but_last [1176; 0]) -> payload = 0 ->
      1200 = 24 \/ 1200 + 1224 mod 1200 = 48).
Proof.
  apply (fragment_burst_no_undersized 1224 1200 1176 [1176; 0]);
    [lia | lia | reflexivity].
Defined.

(** C3. The merge rule: when a second-to-last full fragment has been
    reserved (the quotient is positive) and the remainder [r] is strictly
    between 0 and 24, the second-to-last size becomes
    [fragment_size + r - 24] and the last size 24, so that a returned list
    ends with the payloads [fragment_size + r - 48] and [0]; the call
    returns unless the merged fragment is itself below 24 bytes. In
    particular [fragment_burst(1210, 1200)] returns the payloads
    [[1162, 0]]. *)
Theorem fragment_burst_merge_rule (burst_size fragment_size : Z) :
  24 <= burst_size -> 24 <= fragment_size ->
  0 < burst_size / fragment_size ->
  0 < burst_size mod fragment_size < 24 ->
  let q := burst_size / fragment_size in
  let r := burst_size mod fragment_size in
  let l := merge fragment_size (reserve burst_size fragment_size) in
  second_to_last_size (reserve burst_size fragment_size) = fragment_size
  /\ second_to_last_size l = fragment_size + r - 24
  /\ last_frag_size l = 24
  /\ fragment_burst burst_size fragment_size =
       (if fragment_size + r <? 48 then Raise SecondToLastTooSmall
        else Ok (burst_size - 24 * (q + 1),
                 repeat (fragment_size - 24) (Z.to_nat (q - 1))
                 ++ [fragment_size + r - 24 - 24; 0]))
  /\ fragment_burst 1210 1200 = Ok (1162, [1162; 0]).
Proof.
  intros HB HF Hq Hr q r l.
  assert (Eq : (0 <? q) = true) by (apply Z.ltb_lt; exact Hq).
  assert (Em : ((0 <? r) && (r <? 24)) = true).
  { apply andb_true_iff. split; apply Z.ltb_lt; apply Hr. }
  assert (E0 : (0 <? fragment_size) = true) by (apply Z.ltb_lt; lia).
  split; [unfold reserve; fold q; rewrite Eq; reflexivity|].
  subst l. rewrite merged_layout, fragment_burst_cases by assumption.
  cbv zeta. fold q r. rewrite Eq, E0. cbn [andb]. rewrite Em.
  cbn [second_to_last_size last_frag_size]. repeat split.
  destruct (fragment_size + r <? 48); [reflexivity|]. same_result.
Qed.

Lemma fragment_burst_merge_rule_witness :
  second_to_last_size (merge 1200 (reserve 1210 1200)) = 1200 + 10 - 24
  /\ last_frag_size (merge 1200 (reserve 1210 1200)) = 24
  /\ fragment_burst 1210 1200 = Ok (1162, [1162; 0]).
Proof.
  pose proof (fragment_burst_merge_rule 1210 1200) as H.
  destruct H as (_ & H2 & H3 & _ & H5);
    [lia | lia | reflexivity | split; reflexivity |].
  exact (conj H2 (conj H3 H5)).
Defined.

(** C9. On sizes of at least 24 the last fragment is, after the merge,
    either absent or at least 24 bytes, so the check of the last fragment
    never raises: [fragment_burst] returns or raises the second-to-last
    error (which is reachable, at 25 and 24). *)
Theorem fragment_burst_last_check_unreachable (burst_size fragment_size : Z) :
  24 <= burst_size -> 24 <= fragment_size ->
  let l := merge fragment_size (reserve burst_size fragment_size) in
  (last_frag_size l = 0 \/ 24 <= last_frag_size l)
  /\ fragment_burst burst_size fragment_size <> Raise LastTooSmall
  /\ (forall e, fragment_burst burst_size fragment_size = Raise e ->
      e = SecondToLastTooSmall)
  /\ fragment_burst 25 24 = Raise SecondToLastTooSmall.
Proof.
  intros HB HF l.
  pose proof (Z.mod_pos_bound burst_size fragment_size ltac:(lia)) as Hr.
  pose proof (Z.div_pos burst_size fragment_size ltac:(lia) ltac:(lia)) as Hq.
  assert (Hshape : forall e, fragment_burst burst_size fragment_size = Raise e ->
                             e = SecondToLastTooSmall).
  { intros e. rewrite fragment_burst_cases by assumption. cbv zeta.
    repeat match goal with
           | |- context [if ?b then _ else _] => destruct b
           end; congruence. }
  split; [|split; [|split]].
  - subst l. rewrite merged_layout. cbv zeta.
    destruct (0 <? burst_size / fragment_size) eqn:Eq.
    + destruct ((0 <? fragment_size) && (0 <? burst_size mod fragment_size)
                && (burst_size mod fragment_size <? 24)) eqn:Em.
      * right. cbn. lia.
      * cbn. rewrite !andb_false_iff, !Z.ltb_ge in Em. lia.
    + cbn. right. apply Z.ltb_ge in Eq.
      pose proof (Z.div_mod burst_size fragment_size ltac:(lia)). nia.
  - intros Hlast. apply Hshape in Hlast. discriminate.
  - exact Hshape.
  - reflexivity.
Qed.

Lemma fragment_burst_last_check_unreachable_witness :
  fragment_burst 1210 1200 <> Raise LastTooSmall.
Proof.
  apply (fragment_burst_last_check_unreachable 1210 1200); lia.
Defined.

End FragmenterFacts.

(** * Properties of the frame header codec *)

Section CodecFacts.

Import Codec.

#[local] Open Scope Z_scope.

Lemma be_bytes_length (n : nat) (v : Z) : List.length (be_bytes n v) = n.
Proof. induction n as [|n IH]; cbn [be_bytes List.length]; congruence. Qed.

Lemma be_bytes_range (n : nat) (v : Z) :
  Forall (fun b => 0 <= b < 256) (be_bytes n v).
Proof.
  induction n as [|n IH]; cbn [be_bytes]; constructor; [|exact IH].
  apply Z.mod_pos_bound. lia.
Qed.

Lemma be_value_from (n : nat) (v acc : Z) :
  fold_left (fun a b => a * 256 + b) (be_bytes n v) acc
  = acc * 256 ^ Z.of_nat n + v mod 256 ^ Z.of_nat n.
Proof.
  revert acc. induction n as [|n IH]; intros acc.
  - cbn [be_bytes fold_left]. change (256 ^ Z.of_nat 0) with 1.
    rewrite Z.mod_1_r. lia.
  - cbn [be_bytes fold_left]. rewrite IH.
    rewrite Nat2Z.inj_succ, Z.pow_succ_r by lia.
    assert (Hpos : 0 < 256 ^ Z.of_nat n) by (apply Z.pow_pos_nonneg; lia).
    rewrite (Z.mul_comm 256 (256 ^ Z.of_nat n)).
    rewrite (Z.rem_mul_r v (256 ^ Z.of_nat n) 256) by lia.
    ring.
Qed.

(** Decoding a big-endian field gives back the value it was built from. *)
Lemma be_value_be_bytes (n : nat) (v : Z) :
  0 <= v < 256 ^ Z.of_nat n -> be_value (be_bytes n v) = v.
Proof.
  intros Hv. unfold be_value. rewrite be_value_from.
  rewrite Z.mod_small by exact Hv. lia.
Qed.

Lemma slice_here (len : nat) (xs rest : list Z) :
  List.length xs = len -> slice 0 len (xs ++ rest) = xs.
Proof.
  intros <-. unfold slice. cbn [skipn].
  rewrite firstn_app, Nat.sub_diag, firstn_all. cbn [firstn].
  apply app_nil_r.
Qed.

Lemma slice_after (off len : nat) (xs rest : list Z) :
  slice (List.length xs + off) len (xs ++ rest) = slice off len rest.
Proof.
  unfold slice. rewrite skipn_app.
  replace (List.length xs + off - List.length xs)%nat with off by lia.
  rewrite skipn_all2 by lia. reflexivity.
Qed.

(** C8. For field values in range, [build_header] returns a buffer of
    exactly 24 bytes: the big-endian representations of [frag_seq] (2
    bytes), [total_frags] (2 bytes), [burst_payload] (8 bytes), [burst_seq]
    (4 bytes) and the timestamp (8 bytes), in that order; each field is read
    back from its offset as a big-endian unsigned integer. *)
Theorem build_header_wire_format
    (timestamp frag_seq total_frags burst_payload burst_seq : Z) :
  0 <= frag_seq < 2 ^ 16 ->
  0 <= total_frags < 2 ^ 16 ->
  0 <= burst_payload < 2 ^ 64 ->
  0 <= burst_seq < 2 ^ 32 ->
  0 <= timestamp < 2 ^ 64 ->
  exists header : list Z,
    build_header timestamp frag_seq total_frags burst_payload burst_seq
      = Ok (header, timestamp)
    /\ header = be_bytes 2 frag_seq ++ be_bytes 2 total_frags
                ++ be_bytes 8 burst_payload ++ be_bytes 4 burst_seq
                ++ be_bytes 8 timestamp
    /\ List.length header = 24%nat
    /\ Forall (fun b => 0 <= b < 256) header
    /\ be_value (slice 0 2 header) = frag_seq
    /\ be_value (slice 2 2 header) = total_frags
    /\ be_value (slice 4 8 header) = burst_payload
    /\ be_value (slice 12 4 header) = burst_seq
    /\ be_value (slice 16 8 header) = timestamp.
Proof.
  intros H1 H2 H3 H4 H5.
  eexists. split; [|split; [reflexivity|]].
  - unfold build_header. change HEADER_STRUCT with (Some [U16; U16; U64; U32; U64]).
    cbn [pack code_size].
    change (256 ^ Z.of_nat 2) with (2 ^ 16).
    change (256 ^ Z.of_nat 4) with (2 ^ 32).
    change (256 ^ Z.of_nat 8) with (2 ^ 64).
    repeat match goal with
           | |- context [(0 <=? ?v) && (?v <? ?m)] =>
               replace ((0 <=? v) && (v <? m)) with true
                 by (symmetry; apply andb_true_iff;
                     split; [apply Z.leb_le | apply Z.ltb_lt]; lia)
           end.
    rewrite app_nil_r. reflexivity.
  - split; [|split].
    + rewrite !length_app, !be_bytes_length. reflexivity.
    + repeat (apply Forall_app; split); apply be_bytes_range.
    + repeat split.
      * rewrite slice_here by apply be_bytes_length.
        apply be_value_be_bytes. exact H1.
      * rewrite (slice_after 0 2 (be_bytes 2 frag_seq)).
        rewrite slice_here by apply be_bytes_length.
        apply be_value_be_bytes. exact H2.
      * rewrite (slice_after 2 8 (be_bytes 2 frag_seq)).
        rewrite (slice_after 0 8 (be_bytes 2 total_frags)).
        rewrite slice_here by apply be_bytes_length.
        apply be_value_be_bytes. exact H3.
      * rewrite (slice_after 10 4 (be_bytes 2 frag_seq)).
        rewrite (slice_after 8 4 (be_bytes 2 total_frags)).
        rewrite (slice_after 0 4 (be_bytes 8 burst_payload)).
        rewrite slice_here by apply be_bytes_length.
        apply be_value_be_bytes. exact H4.
      * rewrite (slice_after 14 8 (be_bytes 2 frag_seq)).
        rewrite (slice_after 12 8 (be_bytes 2 total_frags)).
        rewrite (slice_after 4 8 (be_bytes 8 burst_payload)).
        rewrite (slice_after 0 8 (be_bytes 4 burst_seq)).
        replace (be_bytes 8 timestamp) with (be_bytes 8 timestamp ++ [])
          by apply app_nil_r.
        rewrite slice_here by apply be_bytes_length.
        apply be_value_be_bytes. exact H5.
Qed.

Lemma build_header_wire_format_witness :
  exists header : list Z,
    build_header 1700000000000000000 1 3 2428 7
      = Ok (header, 1700000000000000000)
    /\ List.length header = 24%nat
    /\ be_value (slice 12 4 header) = 7.
Proof.
  destruct (build_header_wire_format 1700000000000000000 1 3 2428 7)
    as (header & Hrun & _ & Hlen & _ & _ & _ & _ & Hseq & _);
    try (split; [discriminate | reflexivity]).
  exists header. exact (conj Hrun (conj Hlen Hseq)).
Defined.

End CodecFacts.

(** * Properties of the trace loader *)

Section TraceFacts.

Import Trace.

#[local] Open Scope float_scope.

Variable py_int : string -> option Z.
Variable py_float : string -> option float.

Notation parse_row := (Trace.parse_row py_int py_float).
Notation load_row := (Trace.load_row py_int py_float).
Notation load_rows := (Trace.load_rows py_int py_float).
Notation data_rows := (Trace.data_rows py_int py_float).
Notation malformed := (Trace.malformed py_int py_float).
Notation well_formed := (fun row => negb (Trace.malformed py_int py_float row)).

Lemma parse_row_comment (row : list string) :
  comment row = true -> parse_row row = Skipped.
Proof.
  destruct row as [|first rest]; [reflexivity|].
  cbn [comment Trace.parse_row map hd]. intros ->. reflexivity.
Qed.

Lemma parse_row_data (first : string) (rest : list string) :
  comment (first :: rest) = false ->
  parse_row (first :: rest) =
    match py_int (strip first) with
    | None => Malformed
    | Some burst_size =>
        match rest with
        | [] => Malformed
        | second :: _ =>
            match py_float (strip second) with
            | None => Malformed
            | Some period => Data burst_size period
            end
        end
    end.
Proof.
  cbn [comment Trace.parse_row map hd forallb nth_error]. intros Hc.
  rewrite Hc. apply orb_false_iff in Hc as [-> _]. cbn [andb].
  destruct (py_int (strip first)); [|reflexivity].
  destruct rest; reflexivity.
Qed.

(** One iteration, by the kind of the row. *)
Lemma load_row_well_formed (row_num : Z) (row : list string) (st : loader) :
  malformed row = false ->
  load_row row_num row st = Ok (account_all st (data_rows [row])).
Proof.
  unfold Trace.malformed, Trace.load_row, Trace.data_rows, account_all.
  cbn [flat_map]. rewrite app_nil_r.
  destruct (comment row) eqn:Hc.
  - rewrite parse_row_comment by exact Hc. reflexivity.
  - destruct row as [|first rest]; [discriminate|].
    rewrite parse_row_data by exact Hc. cbn [negb andb].
    destruct (py_int (strip first)); [|discriminate].
    destruct rest as [|second rest]; [discriminate|].
    destruct (py_float (strip second)); [|discriminate].
    intros ->. reflexivity.
Qed.

Lemma load_row_malformed (row_num : Z) (row : list string) (st : loader) :
  malformed row = true ->
  exists e, load_row row_num row st = Raise e
            /\ error_row_num e = Some row_num
            /\ (e = InvalidRow row_num row
                \/ exists value, e = NegativePeriod row_num value
                                 /\ (value <? 0) = true).
Proof.
  unfold Trace.malformed, Trace.load_row.
  destruct (comment row) eqn:Hc; [discriminate|].
  destruct row as [|first rest]; [discriminate|].
  rewrite parse_row_data by exact Hc. cbn [negb andb].
  assert (Hbad : exists e,
             Raise (InvalidRow row_num (first :: rest)) = Raise e :> result error loader
             /\ error_row_num e = Some row_num
             /\ (e = InvalidRow row_num (first :: rest)
                 \/ exists value, e = NegativePeriod row_num value
                                  /\ (value <? 0) = true)).
  { eexists. split; [reflexivity|]. split; [reflexivity|]. left. reflexivity. }
  destruct (py_int (strip first)); [|intros _; exact Hbad].
  destruct rest as [|second rest]; [intros _; exact Hbad|].
  destruct (py_float (strip second)) as [period|]; [|intros _; exact Hbad].
  intros Hneg. rewrite Hneg. eexists. split; [reflexivity|].
  split; [reflexivity|]. right. exists period. split; [reflexivity | exact Hneg].
Qed.

Lemma data_rows_cons (row : list string) (rows : list (list string)) :
  data_rows (row :: rows) = data_rows [row] ++ data_rows rows.
Proof. unfold Trace.data_rows. cbn [flat_map]. rewrite app_nil_r. reflexivity. Qed.

Lemma data_rows_app (pre post : list (list string)) :
  data_rows (pre ++ post) = data_rows pre ++ data_rows post.
Proof. unfold Trace.data_rows. apply flat_map_app. Qed.

Lemma account_all_app (st : loader) (xs ys : list burst) :
  account_all st (xs ++ ys) = account_all (account_all st xs) ys.
Proof. unfold account_all. apply fold_left_app. Qed.

(** The loop over well-formed rows accounts for the data rows in order. *)
Lemma load_rows_well_formed (rows : list (list string)) :
  forall (row_num : Z) (st : loader),
  forallb well_formed rows = true ->
  load_rows row_num rows st = Ok (account_all st (data_rows rows)).
Proof.
  induction rows as [|row rows IH]; intros row_num st Hwf; [reflexivity|].
  cbn [forallb] in Hwf. apply andb_true_iff in Hwf as [Hrow Hrows].
  apply negb_true_iff in Hrow.
  cbn [Trace.load_rows]. rewrite load_row_well_formed by exact Hrow.
  rewrite IH by exact Hrows.
  rewrite (data_rows_cons row rows), account_all_app. reflexivity.
Qed.

(** The loop stops at the first malformed row and names its number. *)
Lemma load_rows_first_malformed (pre : list (list string)) :
  forall (row_num : Z) (row : list string) (post : list (list string))
         (st : loader),
  forallb well_formed pre = true ->
  malformed row = true ->
  exists e, load_rows row_num (pre ++ row :: post) st = Raise e
            /\ error_row_num e = Some (row_num + Z.of_nat (List.length pre))%Z
            /\ (e = InvalidRow (row_num + Z.of_nat (List.length pre)) row
                \/ exists value,
                     e = NegativePeriod (row_num + Z.of_nat (List.length pre)) value
                     /\ (value <? 0) = true).
Proof.
  induction pre as [|r pre IH]; intros row_num row post st Hpre Hrow.
  - cbn [app List.length Z.of_nat Trace.load_rows]. rewrite Z.add_0_r.
    destruct (load_row_malformed row_num row st Hrow) as (e & -> & He).
    exists e. split; [reflexivity | exact He].
  - cbn [forallb] in Hpre. apply andb_true_iff in Hpre as [Hr Hpre].
    apply negb_true_iff in Hr.
    cbn [app Trace.load_rows]. rewrite load_row_well_formed by exact Hr.
    destruct (IH (row_num + 1)%Z row post
                 (account_all st (data_rows [r])) Hpre Hrow)
      as (e & Hrun & He).
    exists e. split; [exact Hrun|].
    replace (row_num + Z.of_nat (List.length (r :: pre)))%Z
      with (row_num + 1 + Z.of_nat (List.length pre))%Z
      by (cbn [List.length]; lia).
    exact He.
Qed.

(** Some row is malformed: there is a first one. *)
Lemma first_malformed (rows : list (list string)) :
  existsb malformed rows = true ->
  exists pre row post,
    rows = pre ++ row :: post
    /\ forallb well_formed pre = true
    /\ malformed row = true.
Proof.
  induction rows as [|r rows IH]; [discriminate|].
  cbn [existsb]. destruct (malformed r) eqn:Hr.
  - intros _. exists [], r, rows. repeat split. exact Hr.
  - cbn [orb]. intros Hex.
    destruct (IH Hex) as (pre & row & post & -> & Hpre & Hrow).
    exists (r :: pre), row, post. repeat split; [|exact Hrow].
    cbn [forallb]. rewrite Hr, Hpre. reflexivity.
Qed.

Lemma no_malformed (rows : list (list string)) :
  existsb malformed rows = false -> forallb well_formed rows = true.
Proof.
  induction rows as [|r rows IH]; [reflexivity|].
  cbn [existsb forallb]. intros Hex.
  apply orb_false_iff in Hex as [-> Hex]. rewrite IH by exact Hex.
  reflexivity.
Qed.

(** ** The loop state is the filtering rule *)

Lemma fsum_snoc (ps : list float) (p : float) : fsum (ps ++ [p]) = fsum ps + p.
Proof. unfold fsum. rewrite fold_left_app. reflexivity. Qed.

Lemma combine_snoc {A B : Type} (xs : list A) (ys : list B) (x : A) (y : B) :
  List.length xs = List.length ys ->
  combine (xs ++ [x]) (ys ++ [y]) = combine xs ys ++ [(x, y)].
Proof.
  revert ys. induction xs as [|a xs IH]; intros [|b ys] Hlen;
    try discriminate; [reflexivity|].
  cbn [app combine]. rewrite IH by (cbn in Hlen; congruence). reflexivity.
Qed.

Lemma cumulative_before_snoc (data : list burst) (d : burst) (i : nat) :
  (i <= List.length data)%nat ->
  cumulative_before (data ++ [d]) i = cumulative_before data i.
Proof.
  intros Hi. unfold cumulative_before. rewrite firstn_app.
  replace (i - List.length data)%nat with 0%nat by lia.
  cbn [firstn]. rewrite app_nil_r. reflexivity.
Qed.

Lemma cumulative_before_all (data : list burst) :
  cumulative_before data (List.length data) = fsum (map snd data).
Proof. unfold cumulative_before. rewrite firstn_all. reflexivity. Qed.

(** Appending a data row keeps the rows retained so far and retains the new
    one exactly when the periods before it sum to at least [start_time]. *)
Lemma retained_snoc (start_time : float) (data : list burst) (d : burst) :
  retained start_time (data ++ [d]) =
    retained start_time data
    ++ (if start_time <=? fsum (map snd data) then [d] else []).
Proof.
  unfold retained. rewrite length_app. cbn [List.length].
  rewrite seq_app. cbn [seq Nat.add].
  rewrite combine_snoc by apply length_seq.
  rewrite filter_app, map_app. f_equal.
  - f_equal. apply filter_ext_in. intros [i x] Hin. cbn [fst].
    apply in_combine_l, in_seq in Hin.
    rewrite cumulative_before_snoc by lia. reflexivity.
  - cbn [filter fst].
    rewrite cumulative_before_snoc, cumulative_before_all by lia.
    destruct (start_time <=? fsum (map snd data)); reflexivity.
Qed.

Lemma account_all_loaded (start_time : float) (data : list burst) :
  account_all (loaded start_time []) data = loaded start_time data.
Proof.
  induction data as [|d data IH] using rev_ind; [reflexivity|].
  rewrite account_all_app, IH. destruct d as [b p].
  unfold account_all, account, loaded.
  cbn [fold_left fst snd cumulative_start self _start_time _bursts _trace_duration].
  rewrite retained_snoc, (map_app snd data). cbn [map snd].
  rewrite fsum_snoc.
  destruct (start_time <=? fsum (map snd data)).
  - rewrite map_app. cbn [map snd]. rewrite fsum_snoc. reflexivity.
  - rewrite app_nil_r. reflexivity.
Qed.

Notation init := (Trace.__init__ py_int py_float).

(** Construction over a file without malformed rows. *)
Lemma init_well_formed (rows : list (list string)) (start_time : float) :
  forallb well_formed rows = true ->
  init rows start_time =
    match retained start_time (data_rows rows) with
    | [] => Raise (NoBursts start_time)
    | _ :: _ => Ok (self (loaded start_time (data_rows rows)))
    end.
Proof.
  intros Hwf. unfold Trace.__init__, Trace._load_trace.
  rewrite load_rows_well_formed by exact Hwf.
  change {| cumulative_start := 0;
            self := {| _start_time := start_time; _bursts := [];
                       _trace_duration := 0 |} |}
    with (loaded start_time []).
  rewrite account_all_loaded. reflexivity.
Qed.

(** Construction over a file with a malformed row. *)
Lemma init_malformed (rows : list (list string)) (start_time : float) :
  existsb malformed rows = true ->
  exists pre row post e,
    rows = pre ++ row :: post
    /\ forallb well_formed pre = true
    /\ malformed row = true
    /\ init rows start_time = Raise e
    /\ error_row_num e = Some (Z.of_nat (List.length pre) + 1)%Z.
Proof.
  intros Hex.
  destruct (first_malformed rows Hex) as (pre & row & post & -> & Hpre & Hrow).
  destruct (load_rows_first_malformed pre 1 row post
              {| cumulative_start := 0;
                 self := {| _start_time := start_time; _bursts := [];
                            _trace_duration := 0 |} |} Hpre Hrow)
    as (e & Hrun & Hnum & _).
  exists pre, row, post, e. repeat split; try assumption.
  - unfold Trace.__init__, Trace._load_trace. rewrite Hrun. reflexivity.
  - rewrite Hnum. f_equal. lia.
Qed.

Lemma init_ok_iff (rows : list (list string)) (start_time : float)
    (g : TraceFileBurstGenerator) :
  init rows start_time = Ok g <->
  forallb well_formed rows = true
  /\ retained start_time (data_rows rows) <> []
  /\ g = self (loaded start_time (data_rows rows)).
Proof.
  split.
  - intros Hrun. destruct (existsb malformed rows) eqn:Hex.
    + destruct (init_malformed rows start_time Hex)
        as (? & ? & ? & e & _ & _ & _ & Hraise & _).
      congruence.
    + apply no_malformed in Hex. rewrite init_well_formed in Hrun by exact Hex.
      split; [exact Hex|].
      destruct (retained start_time (data_rows rows)); [discriminate|].
      split; [discriminate | congruence].
  - intros (Hwf & Hne & ->). rewrite init_well_formed by exact Hwf.
    destruct (retained start_time (data_rows rows)); [contradiction|].
    reflexivity.
Qed.

(** C4. Start-time filtering: when the trace loads, the retained bursts are
    exactly the data rows, in file order, whose cumulative start time (the
    floating-point sum of the periods of all preceding data rows) is at
    least [start_time], and [trace_duration] is the sum of their periods.
    On the rows [(100, 0.0), (5000, 0.02), (300, 0.01)], a start time of 0
    retains the three rows with a duration of 0.03, and a start time of
    0.015 retains only [(300, 0.01)]. *)
Theorem load_trace_start_time_filter
    (rows : list (list string)) (start_time : float)
    (g : TraceFileBurstGenerator) :
  init rows start_time = Ok g ->
  _bursts g = retained start_time (data_rows rows)
  /\ _trace_duration g = fsum (map snd (_bursts g))
  /\ Trace.__init__ dec_int dec_float
       [["100"; "0.0"]; ["5000"; "0.02"]; ["300"; "0.01"]]%string 0
     = Ok {| _start_time := 0;
             _bursts := [(100%Z, 0.0); (5000%Z, 0.02); (300%Z, 0.01)];
             _trace_duration := 0.03 |}
  /\ Trace.__init__ dec_int dec_float
       [["100"; "0.0"]; ["5000"; "0.02"]; ["300"; "0.01"]]%string 0.015
     = Ok {| _start_time := 0.015;
             _bursts := [(300%Z, 0.01)];
             _trace_duration := 0.01 |}.
Proof.
  intros Hrun. apply init_ok_iff in Hrun as (_ & _ & ->).
  cbn [loaded self _bursts _trace_duration].
  repeat split; vm_compute; reflexivity.
Qed.

(** C7. Errors of the trace loader: if some row is malformed, construction
    fails with a parse error that names the number of the first such row;
    if no row is malformed and no row is retained, it fails with the
    empty-trace error; and a row that is blank, or whose first column is
    empty or #-prefixed, leaves the loader's state unchanged, raises nothing,
    and does not change whether and with what the construction succeeds. *)
Theorem load_trace_errors (rows : list (list string)) (start_time : float) :
  (existsb malformed rows = true ->
   exists pre row post e,
     rows = pre ++ row :: post
     /\ forallb well_formed pre = true
     /\ malformed row = true
     /\ init rows start_time = Raise e
     /\ error_row_num e = Some (Z.of_nat (List.length pre) + 1)%Z)
  /\ (existsb malformed rows = false ->
      retained start_time (data_rows rows) = [] ->
      init rows start_time = Raise (NoBursts start_time))
  /\ (forall row, comment row = true ->
      (forall row_num st, load_row row_num row st = Ok st)
      /\ (forall pre post g,
            init (pre ++ row :: post) start_time = Ok g
            <-> init (pre ++ post) start_time = Ok g)).
Proof.
  split; [apply init_malformed|]. split.
  - intros Hex Hnone. apply no_malformed in Hex.
    rewrite init_well_formed by exact Hex. rewrite Hnone. reflexivity.
  - intros row Hc.
    assert (Hwf : malformed row = false)
      by (unfold Trace.malformed; rewrite Hc; reflexivity).
    assert (Hdata : data_rows [row] = []).
    { unfold Trace.data_rows. cbn [flat_map].
      rewrite parse_row_comment by exact Hc. reflexivity. }
    split.
    + intros row_num st. rewrite load_row_well_formed by exact Hwf.
      rewrite Hdata. reflexivity.
    + intros pre post g. rewrite !init_ok_iff.
      rewrite !data_rows_app, (data_rows_cons row post), Hdata.
      rewrite !forallb_app. cbn [forallb app]. rewrite Hwf. cbn [negb andb].
      reflexivity.
Qed.

End TraceFacts.

(** ** The loader on concrete files *)

Lemma load_trace_start_time_filter_witness :
  exists g,
    Trace.__init__ Trace.dec_int Trace.dec_float
      [["100"; "0.0"]; ["5000"; "0.02"]; ["300"; "0.01"]]%string 0.015%float
    = Ok g
    /\ Trace._bursts g
       = Trace.retained 0.015%float
           (Trace.data_rows Trace.dec_int Trace.dec_float
              [["100"; "0.0"]; ["5000"; "0.02"]; ["300"; "0.01"]]%string).
Proof.
  exists {| Trace._start_time := 0.015%float;
            Trace._bursts := [(300, 0.01%float)];
            Trace._trace_duration := 0.01%float |}.
  split; [vm_compute; reflexivity|].
  apply (load_trace_start_time_filter Trace.dec_int Trace.dec_float
           [["100"; "0.0"]; ["5000"; "0.02"]; ["300"; "0.01"]]%string
           0.015%float).
  vm_compute. reflexivity.
Defined.

Lemma load_trace_errors_witness :
  exists pre row post e,
    [["# size, period"]; ["100"; "0.0"]; []; ["5000"; "-0.02"]; ["300"; "0.01"]]%string
    = pre ++ row :: post
    /\ forallb (fun r => negb (Trace.malformed Trace.dec_int Trace.dec_float r))
         pre = true
    /\ Trace.malformed Trace.dec_int Trace.dec_float row = true
    /\ Trace.__init__ Trace.dec_int Trace.dec_float
         [["# size, period"]; ["100"; "0.0"]; []; ["5000"; "-0.02"];
          ["300"; "0.01"]]%string 0%float
       = Raise e
    /\ Trace.error_row_num e = Some (Z.of_nat (List.length pre) + 1).
Proof.
  apply (load_trace_errors Trace.dec_int Trace.dec_float
           [["# size, period"]; ["100"; "0.0"]; []; ["5000"; "-0.02"];
            ["300"; "0.01"]]%string 0%float).
  vm_compute. reflexivity.
Defined.

(** The same file raises at row 4, for its negative period. *)
Example load_trace_negative_period :
  Trace.__init__ Trace.dec_int Trace.dec_float
    [["# size, period"]; ["100"; "0.0"]; []; ["5000"; "-0.02"]; ["300"; "0.01"]]%string
    0%float
  = Raise (Trace.NegativePeriod 4 (-0.02)%float).
Proof. vm_compute. reflexivity. Qed.

(** * Properties of the statistical source *)

Section FloatFacts.

#[local] Open Scope float_scope.

(** A NaN fails every comparison, so a value that passed the acceptance
    test of [sample] is not a NaN. *)
Lemma within_bound_not_nan (x centre radius : float) :
  (abs (x - centre) <=? radius) = true -> Prim2SF x <> S754_nan.
Proof.
  rewrite leb_spec, abs_spec, sub_spec. intros Hle Hnan.
  rewrite Hnan in Hle. discriminate Hle.
Qed.

(** A float that is not a NaN and not below zero is at least zero. *)
Lemma not_below_zero (x : float) :
  Prim2SF x <> S754_nan -> (x <? 0) = false -> (0 <=? x) = true.
Proof.
  rewrite ltb_spec, leb_spec.
  change (Prim2SF 0) with (S754_zero false).
  unfold SFltb, SFleb.
  destruct (Prim2SF x) as [s|s| |s m e]; cbn [SFcompare];
    try destruct s; intros Hnan Hlt; try reflexivity; try discriminate.
  exfalso. apply Hnan. reflexivity.
Qed.

(** A positive float is not at most zero. *)
Lemma positive_not_le_zero (x : float) :
  (0 <? x) = true -> (x <=? 0) = false.
Proof.
  rewrite ltb_spec, leb_spec.
  change (Prim2SF 0) with (S754_zero false).
  unfold SFltb, SFleb.
  destruct (Prim2SF x) as [s|s| |s m e]; cbn [SFcompare];
    try destruct s; intros Hlt; try reflexivity; discriminate.
Qed.

(** Equality test against a finite non-zero constant is Leibniz equality. *)
Lemma eqb_finite (x c : float) (s : bool) (m : positive) (e : Z) :
  Prim2SF c = S754_finite s m e -> (x =? c) = true -> x = c.
Proof.
  intros Hc Heq. apply Prim2SF_inj. rewrite Hc.
  rewrite FloatAxioms.eqb_spec, Hc in Heq. unfold SFeqb in Heq.
  destruct (Prim2SF x) as [s1|s1| |s1 m1 e1]; cbn [SFcompare] in Heq;
    try (destruct s1, s; discriminate); try discriminate.
  destruct (Z.compare e1 e) eqn:He;
    try (destruct s1, s; discriminate).
  destruct (Pos.compare_cont Eq m1 m) eqn:Hm;
    try (destruct s1, s; discriminate).
  apply Z.compare_eq in He. apply Pos.compare_eq in Hm. subst e1 m1.
  destruct s1, s; try discriminate; reflexivity.
Qed.

End FloatFacts.

Section VrFacts.

Import Vr.

#[local] Open Scope float_scope.

Variable math_log : float -> result math_error float.
Variable libm_pow : float -> float -> result math_error float.

Notation sample := (Vr.sample math_log).
Notation sample_int := (Vr.sample_int math_log).
Notation generate_burst := (Vr.generate_burst math_log).
Notation math_pow := (Vr.math_pow libm_pow).
Notation vr_init := (Vr.__init__ libm_pow).

(** What [sample] returns: the candidate computed from one of the draws,
    other than 0 and 1, that passed the acceptance test. *)
Lemma sample_returns
    (rv : LogisticRandomVariable) (draws rest : list float) (x : float) :
  sample rv draws = Returns x rest ->
  exists u odds l,
    In u draws
    /\ ((u =? 0) || (u =? 1)) = false
    /\ float_div u (1 - u) = Ok odds
    /\ math_log odds = Ok l
    /\ x = location rv + scale rv * l
    /\ (abs (x - location rv) <=? bound rv) = true.
Proof.
  induction draws as [|u draws IH]; cbn [Vr.sample]; [discriminate|].
  assert (Hlater : sample rv draws = Returns x rest ->
                   exists u' odds l,
                     In u' (u :: draws)
                     /\ ((u' =? 0) || (u' =? 1)) = false
                     /\ float_div u' (1 - u') = Ok odds
                     /\ math_log odds = Ok l
                     /\ x = location rv + scale rv * l
                     /\ (abs (x - location rv) <=? bound rv) = true).
  { intros Hrun. destruct (IH Hrun) as (u' & odds & l & Hin & Hrest).
    exists u', odds, l. split; [right; exact Hin | exact Hrest]. }
  destruct ((u =? 0) || (u =? 1)) eqn:Hedge; [exact Hlater|].
  destruct (float_div u (1 - u)) as [odds|] eqn:Hodds; [|discriminate].
  destruct (math_log odds) as [l|] eqn:Hlog; [|discriminate].
  destruct (abs (location rv + scale rv * l - location rv) <=? bound rv)
    eqn:Haccept; [|exact Hlater].
  intros Hret. assert (x = location rv + scale rv * l) by congruence.
  subst x. exists u, odds, l.
  repeat split; try assumption; try reflexivity. left. reflexivity.
Qed.

(** C6. Bounded sampling: whatever the location, the scale and the bound,
    a value that [sample] returns passed the acceptance test, that is, its
    distance to the location, as binary64 arithmetic computes it, is at most
    the bound. *)
Theorem sample_within_bound
    (rv : LogisticRandomVariable) (draws rest : list float) (x : float) :
  sample rv draws = Returns x rest ->
  (abs (x - location rv) <=? bound rv) = true.
Proof.
  intros Hrun.
  destruct (sample_returns rv draws rest x Hrun)
    as (u & odds & l & _ & _ & _ & _ & _ & Haccept).
  exact Haccept.
Qed.

(** A returned sample is a suffix of the draws away: [sample] consumes at
    least one draw. *)
Lemma sample_consumes
    (rv : LogisticRandomVariable) (draws rest : list float) (x : float) :
  sample rv draws = Returns x rest ->
  (List.length rest < List.length draws)%nat.
Proof.
  induction draws as [|u draws IH]; cbn [Vr.sample List.length]; [discriminate|].
  destruct ((u =? 0) || (u =? 1)); [intros H; apply IH in H; lia|].
  destruct (float_div u (1 - u)) as [odds|]; [|discriminate].
  destruct (math_log odds) as [l|]; [|discriminate].
  destruct (abs (location rv + scale rv * l - location rv) <=? bound rv);
    [|intros H; apply IH in H; lia].
  intros Hret. injection Hret as _ <-. lia.
Qed.

(** The floor of [generate_burst], for any generator. *)
Lemma generate_burst_floor
    (g : VrBurstGenerator) (draws rest : list float)
    (size_bytes : Z) (interval_seconds : float) :
  generate_burst g draws = Returns (size_bytes, interval_seconds) rest ->
  (24 <= size_bytes)%Z /\ (0 <=? interval_seconds) = true.
Proof.
  unfold Vr.generate_burst.
  destruct (_frame_rv g) as [frame_rv|]; [|discriminate].
  destruct (_period_rv g) as [period_rv|]; [|discriminate].
  destruct (sample_int frame_rv draws) as [n mid| |]; try discriminate.
  destruct (sample period_rv mid) as [x rest'| |] eqn:Hperiod;
    try discriminate.
  intros Hret.
  assert (Hsize : size_bytes = max_int n 24) by congruence.
  assert (Hint : interval_seconds = max_float x 0) by congruence.
  subst size_bytes interval_seconds. split.
  - unfold max_int. destruct (n <? 24)%Z eqn:Hn; [lia|].
    apply Z.ltb_ge in Hn. exact Hn.
  - destruct (sample_returns _ _ _ _ Hperiod)
      as (u & odds & l & _ & _ & _ & _ & _ & Haccept).
    apply within_bound_not_nan in Haccept.
    unfold max_float. destruct (x <? 0) eqn:Hneg; [reflexivity|].
    apply not_below_zero; assumption.
Qed.

(** C5. Model floor: for a generator built from any profile, a frame rate
    of 30 or 60 and a positive target rate, every pair that
    [generate_burst] returns has a size of at least 24 bytes and an
    interval of at least zero seconds. *)
Theorem generate_burst_model_floor
    (app : VrAppName) (frame_rate target_data_rate_bps : float)
    (g : VrBurstGenerator) (draws rest : list float)
    (size_bytes : Z) (interval_seconds : float) :
  ((frame_rate =? 30) || (frame_rate =? 60)) = true ->
  (0 <? target_data_rate_bps) = true ->
  vr_init app frame_rate target_data_rate_bps = Ok g ->
  generate_burst g draws = Returns (size_bytes, interval_seconds) rest ->
  (24 <= size_bytes)%Z /\ (0 <=? interval_seconds) = true.
Proof.
  intros _ _ _. apply generate_burst_floor.
Qed.

(** Every profile of [_VR_MODELS] has its five coefficients. *)
Lemma profiles_complete (app : VrAppName) :
  exists g d e,
    gamma (_VR_MODELS app) = Some g
    /\ delta (_VR_MODELS app) = Some d
    /\ epsilon (_VR_MODELS app) = Some e.
Proof.
  destruct app; cbn [_VR_MODELS gamma delta epsilon];
    do 3 eexists; repeat split; reflexivity.
Qed.

(** The outcome of the construction on valid arguments, by what the calls
    of [math.pow] that [_setup_model] makes return: the one on [beta], and
    at 30 frames per second the one on [epsilon]. *)
Lemma vr_init_outcome
    (app : VrAppName) (frame_rate target_data_rate_bps : float) :
  ((frame_rate =? 30) || (frame_rate =? 60)) = true ->
  (0 <? target_data_rate_bps) = true ->
  exists e,
    epsilon (_VR_MODELS app) = Some e
    /\ match math_pow (target_data_rate_bps / 1e6) (beta (_VR_MODELS app)) with
       | Raise err =>
           vr_init app frame_rate target_data_rate_bps = Raise (Math err)
       | Ok _ =>
           if frame_rate =? 60
           then exists g, vr_init app frame_rate target_data_rate_bps = Ok g
           else
             match math_pow (target_data_rate_bps / 1e6) e with
             | Raise err =>
                 vr_init app frame_rate target_data_rate_bps
                 = Raise (Math err)
             | Ok _ =>
                 exists g, vr_init app frame_rate target_data_rate_bps = Ok g
             end
       end.
Proof.
  intros Hrate_ok Hpos.
  destruct (profiles_complete app) as (g & d & e & Hg & Hd & He).
  exists e. split; [exact He|].
  unfold Vr.__init__. rewrite Hrate_ok.
  rewrite (positive_not_le_zero _ Hpos). cbn [negb].
  unfold Vr._setup_model.
  cbn [_app _frame_rate _target_rate_bps _frame_rv _period_rv].
  rewrite Hg, Hd, He.
  apply orb_true_iff in Hrate_ok as [H30|H60].
  - apply (eqb_finite _ _ false 8444249301319680 (-48)%Z) in H30;
      [|vm_compute; reflexivity].
    subst frame_rate. unfold float_div.
    change (30 =? 0) with false. change (30 =? 60) with false.
    cbn [Vr.bind].
    destruct (math_pow (target_data_rate_bps / 1e6) (beta (_VR_MODELS app)))
      as [p|err]; cbn [Vr.bind]; [|reflexivity].
    destruct (math_pow (target_data_rate_bps / 1e6) e) as [q|err];
      cbn [Vr.bind]; [eexists; reflexivity | reflexivity].
  - apply (eqb_finite _ _ false 8444249301319680 (-47)%Z) in H60;
      [|vm_compute; reflexivity].
    subst frame_rate. unfold float_div.
    change (60 =? 0) with false. change (60 =? 60) with true.
    cbn [Vr.bind].
    destruct (math_pow (target_data_rate_bps / 1e6) (beta (_VR_MODELS app)))
      as [p|err]; cbn [Vr.bind]; [eexists; reflexivity | reflexivity].
Qed.

(** C10, amended. All four profiles define the five coefficients, so for
    every profile, a frame rate of 30 or 60 and a positive target rate the
    construction never takes the missing-gamma or the missing-delta/epsilon
    branch. It succeeds exactly when the call of [math.pow] on the target
    rate in Mbps and the profile's [beta] returns and, when the frame rate
    is not 60, the call on the profile's [epsilon] returns too; when the
    first of these calls to raise raises, the construction raises that
    exception. *)
Theorem vr_init_total_up_to_pow
    (app : VrAppName) (frame_rate target_data_rate_bps : float) :
  ((frame_rate =? 30) || (frame_rate =? 60)) = true ->
  (0 <? target_data_rate_bps) = true ->
  (exists g d e,
     gamma (_VR_MODELS app) = Some g
     /\ delta (_VR_MODELS app) = Some d
     /\ epsilon (_VR_MODELS app) = Some e)
  /\ ((exists g, vr_init app frame_rate target_data_rate_bps = Ok g)
      <-> (exists p,
             math_pow (target_data_rate_bps / 1e6) (beta (_VR_MODELS app))
             = Ok p)
          /\ ((frame_rate =? 60) = false ->
              exists e q,
                epsilon (_VR_MODELS app) = Some e
                /\ math_pow (target_data_rate_bps / 1e6) e = Ok q))
  /\ (forall err,
        math_pow (target_data_rate_bps / 1e6) (beta (_VR_MODELS app))
        = Raise err ->
        vr_init app frame_rate target_data_rate_bps = Raise (Math err))
  /\ (forall p e err,
        math_pow (target_data_rate_bps / 1e6) (beta (_VR_MODELS app)) = Ok p ->
        (frame_rate =? 60) = false ->
        epsilon (_VR_MODELS app) = Some e ->
        math_pow (target_data_rate_bps / 1e6) e = Raise err ->
        vr_init app frame_rate target_data_rate_bps = Raise (Math err))
  /\ vr_init app frame_rate target_data_rate_bps <> Raise (MissingGamma app)
  /\ vr_init app frame_rate target_data_rate_bps
     <> Raise (MissingDeltaEpsilon app).
Proof.
  intros Hrate_ok Hpos.
  split; [apply profiles_complete|].
  destruct (vr_init_outcome app frame_rate target_data_rate_bps Hrate_ok Hpos)
    as (e & He & Hout).
  destruct (math_pow (target_data_rate_bps / 1e6) (beta (_VR_MODELS app)))
    as [p|err1] eqn:Hbeta.
  - destruct (frame_rate =? 60) eqn:H60.
    + destruct Hout as (g & Hg). rewrite Hg.
      split; [|split; [|split; [|split]]]; try discriminate.
      split; [|eauto]. intros _. split; [eauto | discriminate].
    + destruct (math_pow (target_data_rate_bps / 1e6) e) as [q|err2] eqn:Heps.
      * destruct Hout as (g & Hg). rewrite Hg.
        split; [|split; [|split; [|split]]]; try discriminate.
        -- split; [|eauto]. intros _. split; [eauto|].
           intros _. exists e, q. split; assumption.
        -- intros p' e' err Hp' _ He' Herr.
           assert (e' = e) by congruence. subst e'. congruence.
      * rewrite Hout.
        split; [|split; [|split; [|split]]]; try discriminate.
        -- split; [intros (g & Hg); discriminate|].
           intros (_ & Heps'). destruct (Heps' eq_refl) as (e' & q & He' & Hq).
           assert (e' = e) by congruence. subst e'. congruence.
        -- intros p' e' err Hp' _ He' Herr.
           assert (e' = e) by congruence. subst e'. congruence.
  - rewrite Hout.
    split; [|split; [|split; [|split]]]; try discriminate.
    + split; [intros (g & Hg); discriminate|].
      intros ((p & Hp) & _). discriminate.
    + intros err Herr. congruence.
Qed.

End VrFacts.

(** ** The statistical source on concrete inputs *)

(** C10, as stated, fails: the smallest positive float is a positive target
    rate, but divided by [1e6] it is zero, and [math.pow] raises on a zero
    base with the (negative) exponent [beta]; no platform [pow] makes the
    construction succeed. *)
Lemma vr_init_raises_on_underflow :
  (0 <? 5e-324)%float = true
  /\ ~ (exists libm_pow g,
          Vr.__init__ libm_pow Vr.VirusPopper 60%float 5e-324%float = Ok g).
Proof.
  split; [reflexivity|].
  intros (libm_pow & g & Hrun). vm_compute in Hrun. discriminate Hrun.
Qed.

Lemma vr_init_total_up_to_pow_witness :
  exists g, Vr.__init__ Vr.pow1 Vr.Minecraft 30%float 20e6%float = Ok g.
Proof.
  apply (vr_init_total_up_to_pow Vr.pow1 Vr.Minecraft 30%float 20e6%float);
    [reflexivity | reflexivity |].
  split.
  - eexists. vm_compute. reflexivity.
  - intros _. do 2 eexists. split; vm_compute; reflexivity.
Defined.

Lemma sample_within_bound_witness :
  Vr.sample Vr.ln1 (Vr.mkLogistic 10 2 (Some 5%float)) [0; 0.9; 0.5]%float
  = Vr.Returns 10%float []
  /\ (abs (10 - 10) <=? 5)%float = true.
Proof.
  split; [vm_compute; reflexivity|].
  apply (sample_within_bound Vr.ln1 (Vr.mkLogistic 10 2 (Some 5%float))
           [0; 0.9; 0.5]%float [] 10%float).
  vm_compute. reflexivity.
Defined.

Lemma generate_burst_model_floor_witness :
  exists g,
    Vr.__init__ Vr.pow1 Vr.VirusPopper 60%float 20e6%float = Ok g
    /\ Vr.generate_burst Vr.ln1 g [0.5; 0.5]%float
       = Vr.Returns (41666, (1 / 60)%float) []
    /\ 24 <= 41666
    /\ (0 <=? 1 / 60)%float = true.
Proof.
  eexists. split; [vm_compute; reflexivity|].
  split; [vm_compute; reflexivity|].
  eapply (generate_burst_model_floor Vr.ln1 Vr.pow1 Vr.VirusPopper
            60%float 20e6%float _ [0.5; 0.5]%float []).
  - reflexivity.
  - reflexivity.
  - vm_compute. reflexivity.
  - vm_compute. reflexivity.
Defined.

(** A sample that is too far from the location is drawn again; the draws
    0 and 1 are skipped; when the draws run out the call is still looping. *)
Example sample_rejects :
  Vr.sample Vr.ln1 (Vr.mkLogistic 10 2 (Some 5%float)) [1; 0.9]%float
  = Vr.Spins.
Proof. vm_compute. reflexivity. Qed.

(** * Further properties of the fragmenter *)

Section FragmenterMore.

Import Fragmenter.

#[local] Open Scope Z_scope.

(** A call that returns was given admissible sizes. *)
Lemma fragment_burst_ok_sizes
    (burst_size fragment_size burst_payload : Z) (fragments : list Z) :
  fragment_burst burst_size fragment_size = Ok (burst_payload, fragments) ->
  24 <= burst_size /\ 24 <= fragment_size.
Proof.
  unfold fragment_burst, SEQTS_SIZE_FRAG_HEADER_LEN.
  destruct (burst_size <? 24) eqn:HB; [discriminate|].
  destruct (fragment_size <? 24) eqn:HF; [discriminate|].
  apply Z.ltb_ge in HB, HF. intros _. split; assumption.
Qed.

(** What a returned fragmentation looks like: the shared facts behind the
    properties below. *)
Lemma fragment_burst_sound
    (burst_size fragment_size burst_payload : Z) (fragments : list Z) :
  fragment_burst burst_size fragment_size = Ok (burst_payload, fragments) ->
  24 <= burst_size /\ 24 <= fragment_size
  /\ Forall (fun payload => 0 <= payload <= fragment_size - 24) fragments
  /\ zsum fragments = burst_payload
  /\ burst_payload + 24 * Z.of_nat (List.length fragments) = burst_size
  /\ Z.of_nat (List.length fragments)
     = (burst_size + fragment_size - 1) / fragment_size.
Proof.
  intros Hrun.
  destruct (fragment_burst_ok_sizes _ _ _ _ Hrun) as [HB HF].
  split; [exact HB|]. split; [exact HF|].
  rewrite fragment_burst_cases in Hrun by assumption. cbv zeta in Hrun.
  pose proof (Z.mod_pos_bound burst_size fragment_size ltac:(lia)) as Hr.
  pose proof (Z.div_pos burst_size fragment_size ltac:(lia) ltac:(lia)) as Hq.
  pose proof (Z.div_mod burst_size fragment_size ltac:(lia)) as Hdm.
  set (q := burst_size / fragment_size) in *.
  set (r := burst_size mod fragment_size) in *.
  set (full := repeat (fragment_size - 24) (Z.to_nat (q - 1))) in *.
  assert (Hfull : Forall (fun payload => 0 <= payload <= fragment_size - 24) full).
  { apply Forall_forall. intros p Hp. apply repeat_spec in Hp. lia. }
  assert (Hsum : zsum full = Z.max 0 (q - 1) * (fragment_size - 24)).
  { unfold full. rewrite zsum_repeat. lia. }
  assert (Hlen : Z.of_nat (List.length full) = Z.max 0 (q - 1)).
  { unfold full. rewrite repeat_length. lia. }
  assert (Hceil : forall n, (0 < r -> n = q + 1) -> (r = 0 -> n = q) ->
                            n = (burst_size + fragment_size - 1) / fragment_size).
  { intros n Hpos Hzero.
    destruct (Z.eq_dec r 0) as [Hr0|Hr0].
    - apply (Z.div_unique _ _ _ (fragment_size - 1)); [lia|].
      rewrite (Hzero Hr0). lia.
    - apply (Z.div_unique _ _ _ (r - 1)); [lia|].
      rewrite (Hpos ltac:(lia)). lia. }
  destruct (0 <? q) eqn:Eq; [apply Z.ltb_lt in Eq | apply Z.ltb_ge in Eq].
  - destruct ((0 <? r) && (r <? 24)) eqn:Em.
    + apply andb_true_iff in Em as [Hr0 Hr24].
      apply Z.ltb_lt in Hr0, Hr24.
      destruct (fragment_size + r <? 48) eqn:Es; [discriminate|].
      apply Z.ltb_ge in Es.
      assert (fragments = full ++ [fragment_size + r - 48; 0]) by congruence.
      assert (burst_payload = burst_size - 24 * (q + 1)) by congruence.
      subst fragments burst_payload.
      rewrite zsum_app, length_app, Nat2Z.inj_add, Hsum, Hlen.
      cbn [zsum fold_right List.length].
      repeat split; try nia.
      * apply Forall_app. split; [exact Hfull|]. repeat constructor; lia.
      * apply Hceil; lia.
    + assert (Hr' : r = 0 \/ 24 <= r).
      { apply andb_false_iff in Em as [Em|Em]; apply Z.ltb_ge in Em; lia. }
      destruct (r =? 0) eqn:Er0;
        [apply Z.eqb_eq in Er0 | apply Z.eqb_neq in Er0].
      * assert (fragments = full ++ [fragment_size - 24]) by congruence.
        assert (burst_payload = burst_size - 24 * q) by congruence.
        subst fragments burst_payload.
        rewrite zsum_app, length_app, Nat2Z.inj_add, Hsum, Hlen.
        cbn [zsum fold_right List.length].
        repeat split; try nia.
        -- apply Forall_app. split; [exact Hfull|]. repeat constructor; lia.
        -- apply Hceil; lia.
      * assert (fragments = full ++ [fragment_size - 24; r - 24])
          by congruence.
        assert (burst_payload = burst_size - 24 * (q + 1)) by congruence.
        subst fragments burst_payload.
        rewrite zsum_app, length_app, Nat2Z.inj_add, Hsum, Hlen.
        cbn [zsum fold_right List.length].
        repeat split; try nia.
        -- apply Forall_app. split; [exact Hfull|]. repeat constructor; lia.
        -- apply Hceil; lia.
  - assert (fragments = [burst_size - 24]) by congruence.
    assert (burst_payload = burst_size - 24) by congruence.
    subst fragments burst_payload. cbn [zsum fold_right List.length].
    repeat split; try nia.
    + repeat constructor; nia.
    + apply Hceil; nia.
Qed.

(** X1. [fragment_burst] returns exactly when both sizes are at least 24
    and the burst fits one fragment, or is a multiple of the fragment size,
    or the fragment size plus the remainder is at least 48; so it returns
    for every burst of at least 24 bytes once the fragment size is at least
    47, and on no input at all does it raise the last-fragment error. *)
Theorem fragment_burst_returns_iff (burst_size fragment_size : Z) :
  ((exists burst_payload fragments,
      fragment_burst burst_size fragment_size = Ok (burst_payload, fragments))
   <-> 24 <= burst_size /\ 24 <= fragment_size
       /\ (burst_size < fragment_size
           \/ burst_size mod fragment_size = 0
           \/ 48 <= fragment_size + burst_size mod fragment_size))
  /\ (24 <= burst_size -> 47 <= fragment_size ->
      exists burst_payload fragments,
        fragment_burst burst_size fragment_size = Ok (burst_payload, fragments))
  /\ fragment_burst burst_size fragment_size <> Raise LastTooSmall.
Proof.
  assert (Hback : 24 <= burst_size -> 24 <= fragment_size ->
                  (burst_size < fragment_size
                   \/ burst_size mod fragment_size = 0
                   \/ 48 <= fragment_size + burst_size mod fragment_size) ->
                  exists burst_payload fragments,
                    fragment_burst burst_size fragment_size
                    = Ok (burst_payload, fragments)).
  { intros HB HF Hfit. rewrite fragment_burst_cases by assumption. cbv zeta.
    pose proof (Z.mod_pos_bound burst_size fragment_size ltac:(lia)) as Hr.
    destruct (0 <? burst_size / fragment_size) eqn:Eq; [|eauto].
    apply Z.ltb_lt in Eq.
    assert (fragment_size <= burst_size).
    { destruct (Z_lt_le_dec burst_size fragment_size) as [Hlt|Hle]; [|exact Hle].
      rewrite Z.div_small in Eq by lia. lia. }
    destruct ((0 <? burst_size mod fragment_size)
              && (burst_size mod fragment_size <? 24)) eqn:Em.
    - apply andb_true_iff in Em as [Hr0 Hr24]. apply Z.ltb_lt in Hr0, Hr24.
      replace (fragment_size + burst_size mod fragment_size <? 48) with false
        by (symmetry; apply Z.ltb_ge; lia).
      eauto.
    - destruct (burst_size mod fragment_size =? 0); eauto. }
  split; [split|split].
  - intros (bp & frags & Hrun).
    destruct (fragment_burst_ok_sizes _ _ _ _ Hrun) as [HB HF].
    split; [exact HB|]. split; [exact HF|].
    rewrite fragment_burst_cases in Hrun by assumption. cbv zeta in Hrun.
    pose proof (Z.mod_pos_bound burst_size fragment_size ltac:(lia)) as Hr.
    destruct (0 <? burst_size / fragment_size) eqn:Eq.
    + destruct ((0 <? burst_size mod fragment_size)
                && (burst_size mod fragment_size <? 24)) eqn:Em.
      * destruct (fragment_size + burst_size mod fragment_size <? 48) eqn:Es;
          [discriminate|].
        apply Z.ltb_ge in Es. right. right. exact Es.
      * apply andb_false_iff in Em as [Em|Em]; apply Z.ltb_ge in Em; lia.
    + apply Z.ltb_ge in Eq. left.
      destruct (Z_lt_le_dec burst_size fragment_size) as [Hlt|Hle];
        [exact Hlt|].
      pose proof (Z.div_le_lower_bound burst_size fragment_size 1
                    ltac:(lia) ltac:(lia)). lia.
  - intros (HB & HF & Hfit). apply Hback; assumption.
  - intros HB HF. apply Hback; [lia | lia |].
    pose proof (Z.mod_pos_bound burst_size fragment_size ltac:(lia)) as Hr.
    destruct (Z.eq_dec (burst_size mod fragment_size) 0); [auto|].
    right. right. lia.
  - destruct (Z_lt_le_dec burst_size 24) as [HB|HB].
    { unfold fragment_burst, SEQTS_SIZE_FRAG_HEADER_LEN.
      replace (burst_size <? 24) with true by (symmetry; apply Z.ltb_lt; lia).
      discriminate. }
    destruct (Z_lt_le_dec fragment_size 24) as [HF|HF].
    { unfold fragment_burst, SEQTS_SIZE_FRAG_HEADER_LEN.
      replace (burst_size <? 24) with false by (symmetry; apply Z.ltb_ge; lia).
      replace (fragment_size <? 24) with true
        by (symmetry; apply Z.ltb_lt; lia).
      discriminate. }
    rewrite fragment_burst_cases by assumption. cbv zeta.
    repeat match goal with
           | |- context [if ?b then _ else _] => destruct b
           end; discriminate.
Qed.

(** X2. The number of fragments of a returned fragmentation is the burst
    size divided by the fragment size, rounded up. *)
Theorem fragment_burst_count
    (burst_size fragment_size burst_payload : Z) (fragments : list Z) :
  fragment_burst burst_size fragment_size = Ok (burst_payload, fragments) ->
  Z.of_nat (List.length fragments)
  = (burst_size + fragment_size - 1) / fragment_size.
Proof. intros Hrun. apply (fragment_burst_sound _ _ _ _ Hrun). Qed.

Lemma fragment_burst_count_witness :
  Z.of_nat (List.length [1176; 1176; 76]) = (2500 + 1200 - 1) / 1200.
Proof.
  apply (fragment_burst_count 2500 1200 2428 [1176; 1176; 76]). reflexivity.
Defined.

(** X3. In a returned fragmentation every payload length is between 0 and
    the fragment size minus the header, so no fragment exceeds the fragment
    size on the wire; and the burst payload is between 0 and the burst size
    minus one header. *)
Theorem fragment_burst_payload_bounds
    (burst_size fragment_size burst_payload : Z) (fragments : list Z) :
  fragment_burst burst_size fragment_size = Ok (burst_payload, fragments) ->
  Forall (fun payload => 0 <= payload /\ payload + 24 <= fragment_size)
         fragments
  /\ 0 <= burst_payload <= burst_size - 24.
Proof.
  intros Hrun.
  destruct (fragment_burst_sound _ _ _ _ Hrun)
    as (HB & HF & Hall & Hsum & Htotal & Hcount).
  split.
  - eapply Forall_impl; [|exact Hall]. cbv beta. intros p Hp. lia.
  - assert (Hnonneg : 0 <= zsum fragments).
    { clear - Hall. unfold zsum.
      induction Hall as [|p ps Hp _ IH]; cbn [fold_right]; lia. }
    assert (1 <= Z.of_nat (List.length fragments)).
    { rewrite Hcount. apply Z.div_le_lower_bound; lia. }
    lia.
Qed.

Lemma fragment_burst_payload_bounds_witness :
  Forall (fun payload => 0 <= payload /\ payload + 24 <= 1200) [1162; 0]
  /\ 0 <= 1162 <= 1210 - 24.
Proof.
  apply (fragment_burst_payload_bounds 1210 1200 1162 [1162; 0]). reflexivity.
Defined.

(** X4. A burst of at least 24 bytes that fits the fragment size is sent as
    one fragment carrying the whole payload. *)
Theorem fragment_burst_single (burst_size fragment_size : Z) :
  24 <= burst_size -> burst_size <= fragment_size ->
  fragment_burst burst_size fragment_size
  = Ok (burst_size - 24, [burst_size - 24]).
Proof.
  intros HB Hfit. rewrite fragment_burst_cases by lia. cbv zeta.
  destruct (Z.eq_dec burst_size fragment_size) as [->|Hne].
  - rewrite Z.div_same, Z.mod_same by lia.
    change (0 <? 1) with true. change ((0 <? 0) && (0 <? 24)) with false.
    change (0 =? 0) with true. change (Z.to_nat (1 - 1)) with 0%nat.
    cbn [repeat app]. f_equal; f_equal; lia.
  - rewrite Z.div_small by lia. reflexivity.
Qed.

Lemma fragment_burst_single_witness :
  fragment_burst 1200 1200 = Ok (1176, [1176]).
Proof. apply (fragment_burst_single 1200 1200); lia. Defined.

End FragmenterMore.

(** * Further properties of the frame header codec *)

Section CodecMore.

Import Codec.

#[local] Open Scope Z_scope.

Lemma fits_true (v m : Z) : 0 <= v < m -> (0 <=? v) && (v <? m) = true.
Proof.
  intros Hv. apply andb_true_iff. split; [apply Z.leb_le | apply Z.ltb_lt]; lia.
Qed.

Lemma fits_inv (v m : Z) : (0 <=? v) && (v <? m) = true -> 0 <= v < m.
Proof.
  intros Hv. apply andb_true_iff in Hv as [H0 Hm].
  apply Z.leb_le in H0. apply Z.ltb_lt in Hm. lia.
Qed.

(** Whatever [build_header] returns: the fields were in range, the
    timestamp is the clock reading, and the buffer is the concatenation of
    the five big-endian fields. *)
Lemma build_header_inv
    (timestamp frag_seq total_frags burst_payload burst_seq ts : Z)
    (header : list Z) :
  build_header timestamp frag_seq total_frags burst_payload burst_seq
    = Ok (header, ts) ->
  header_in_range timestamp frag_seq total_frags burst_payload burst_seq
  /\ ts = timestamp
  /\ header = be_bytes 2 frag_seq ++ be_bytes 2 total_frags
              ++ be_bytes 8 burst_payload ++ be_bytes 4 burst_seq
              ++ be_bytes 8 timestamp
  /\ List.length header = 24%nat.
Proof.
  unfold build_header, header_in_range.
  change HEADER_STRUCT with (Some [U16; U16; U64; U32; U64]).
  cbn [pack code_size].
  change (256 ^ Z.of_nat 2) with (2 ^ 16).
  change (256 ^ Z.of_nat 4) with (2 ^ 32).
  change (256 ^ Z.of_nat 8) with (2 ^ 64).
  destruct ((0 <=? frag_seq) && (frag_seq <? 2 ^ 16)) eqn:H1; [|discriminate].
  destruct ((0 <=? total_frags) && (total_frags <? 2 ^ 16)) eqn:H2;
    [|discriminate].
  destruct ((0 <=? burst_payload) && (burst_payload <? 2 ^ 64)) eqn:H3;
    [|discriminate].
  destruct ((0 <=? burst_seq) && (burst_seq <? 2 ^ 32)) eqn:H4; [|discriminate].
  destruct ((0 <=? timestamp) && (timestamp <? 2 ^ 64)) eqn:H5; [|discriminate].
  apply fits_inv in H1, H2, H3, H4, H5. rewrite app_nil_r.
  intros Hrun.
  assert (Hh : header = be_bytes 2 frag_seq ++ be_bytes 2 total_frags
                        ++ be_bytes 8 burst_payload ++ be_bytes 4 burst_seq
                        ++ be_bytes 8 timestamp) by congruence.
  assert (Hts : ts = timestamp) by congruence.
  repeat split; try lia; try assumption.
  subst header. rewrite !length_app, !be_bytes_length. reflexivity.
Qed.

(** The only way [build_header] fails. *)
Lemma build_header_raises
    (timestamp frag_seq total_frags burst_payload burst_seq : Z) (e : error) :
  build_header timestamp frag_seq total_frags burst_payload burst_seq
    = Raise e ->
  ~ header_in_range timestamp frag_seq total_frags burst_payload burst_seq.
Proof.
  intros Hrun (H1 & H2 & H3 & H4 & H5). revert Hrun.
  unfold build_header.
  change HEADER_STRUCT with (Some [U16; U16; U64; U32; U64]).
  cbn [pack code_size].
  change (256 ^ Z.of_nat 2) with (2 ^ 16).
  change (256 ^ Z.of_nat 4) with (2 ^ 32).
  change (256 ^ Z.of_nat 8) with (2 ^ 64).
  rewrite !fits_true by assumption. discriminate.
Qed.

(** X5. [build_header] returns exactly when the five fields fit their
    widths (16, 16, 64, 32 and 64 bits, unsigned), and then the timestamp it
    returns is the clock reading; otherwise it raises [struct.error]. *)
Theorem build_header_returns_iff
    (timestamp frag_seq total_frags burst_payload burst_seq : Z) :
  ((exists header ts,
      build_header timestamp frag_seq total_frags burst_payload burst_seq
      = Ok (header, ts))
   <-> header_in_range timestamp frag_seq total_frags burst_payload burst_seq)
  /\ (forall header ts,
        build_header timestamp frag_seq total_frags burst_payload burst_seq
        = Ok (header, ts) -> ts = timestamp)
  /\ (~ header_in_range timestamp frag_seq total_frags burst_payload burst_seq
      -> build_header timestamp frag_seq total_frags burst_payload burst_seq
         = Raise StructError).
Proof.
  split; [split|split].
  - intros (header & ts & Hrun). apply (build_header_inv _ _ _ _ _ _ _ Hrun).
  - intros Hrange.
    destruct (build_header timestamp frag_seq total_frags burst_payload
                burst_seq) as [[header ts]|e] eqn:Hrun; [eauto|].
    exfalso. exact (build_header_raises _ _ _ _ _ _ Hrun Hrange).
  - intros header ts Hrun. apply (build_header_inv _ _ _ _ _ _ _ Hrun).
  - intros Hout.
    destruct (build_header timestamp frag_seq total_frags burst_payload
                burst_seq) as [[header ts]|[]] eqn:Hrun; [|reflexivity].
    exfalso. apply Hout. apply (build_header_inv _ _ _ _ _ _ _ Hrun).
Qed.

Lemma app_same_length_inj {A : Type} (xs xs' ys ys' : list A) :
  List.length xs = List.length xs' ->
  xs ++ ys = xs' ++ ys' -> xs = xs' /\ ys = ys'.
Proof.
  revert xs'. induction xs as [|x xs IH]; intros [|x' xs'] Hlen Heq;
    try discriminate.
  - split; [reflexivity | exact Heq].
  - cbn [app] in Heq. injection Heq as -> Heq.
    destruct (IH xs' ltac:(cbn in Hlen; congruence) Heq) as [-> ->].
    split; reflexivity.
Qed.

(** X6. Headers are injective: two headers built from in-range fields that
    are equal as byte strings were built from the same five fields. *)
Theorem build_header_injective
    (t1 f1 n1 p1 s1 t2 f2 n2 p2 s2 : Z) (header : list Z) :
  build_header t1 f1 n1 p1 s1 = Ok (header, t1) ->
  build_header t2 f2 n2 p2 s2 = Ok (header, t2) ->
  f1 = f2 /\ n1 = n2 /\ p1 = p2 /\ s1 = s2 /\ t1 = t2.
Proof.
  intros Hrun1 Hrun2.
  destruct (build_header_inv _ _ _ _ _ _ _ Hrun1)
    as ((Hf1 & Hn1 & Hp1 & Hs1 & Ht1) & _ & Hh1 & _).
  destruct (build_header_inv _ _ _ _ _ _ _ Hrun2)
    as ((Hf2 & Hn2 & Hp2 & Hs2 & Ht2) & _ & Hh2 & _).
  rewrite Hh1 in Hh2.
  assert (Hsplit : forall (n : nat) (a b : Z) (xs ys : list Z),
             be_bytes n a ++ xs = be_bytes n b ++ ys ->
             be_bytes n a = be_bytes n b /\ xs = ys).
  { intros n a b xs ys Heq. apply app_same_length_inj; [|exact Heq].
    rewrite !be_bytes_length. reflexivity. }
  assert (Hval : forall (n : nat) (a b : Z),
             0 <= a < 256 ^ Z.of_nat n -> 0 <= b < 256 ^ Z.of_nat n ->
             be_bytes n a = be_bytes n b -> a = b).
  { intros n a b Ha Hb Heq.
    rewrite <- (be_value_be_bytes n a Ha), <- (be_value_be_bytes n b Hb), Heq.
    reflexivity. }
  apply Hsplit in Hh2 as [E1 Hh2]. apply Hsplit in Hh2 as [E2 Hh2].
  apply Hsplit in Hh2 as [E3 Hh2].
  rewrite <- (app_nil_r (be_bytes 8 t1)), <- (app_nil_r (be_bytes 8 t2)) in Hh2.
  apply Hsplit in Hh2 as [E4 Hh2]. apply Hsplit in Hh2 as [E5 _].
  repeat split; eapply Hval; try eassumption; assumption.
Qed.

End CodecMore.

(** * Further facts on binary64 arithmetic *)

Section FloatMore.

Import Float754.

#[local] Open Scope float_scope.

Lemma Prim2SF_nan (x : float) : Prim2SF x = S754_nan -> x = nan.
Proof. intros Hx. apply Prim2SF_inj. rewrite Hx. reflexivity. Qed.

(** A NaN absorbs addition and fails every comparison. *)
Lemma add_nan_l (x : float) : nan + x = nan.
Proof. apply Prim2SF_inj. rewrite add_spec. reflexivity. Qed.

Lemma add_nan_r (x : float) : x + nan = nan.
Proof.
  apply Prim2SF_inj. rewrite add_spec. change (Prim2SF nan) with S754_nan.
  destruct (Prim2SF x); reflexivity.
Qed.

Lemma leb_nan_r (x : float) : (x <=? nan) = false.
Proof.
  rewrite leb_spec. change (Prim2SF nan) with S754_nan.
  unfold SFleb. destruct (Prim2SF x); reflexivity.
Qed.

Lemma leb_nan_l (x : float) : (nan <=? x) = false.
Proof. rewrite leb_spec. reflexivity. Qed.

Lemma leb_zero_nonneg (x : float) : (0 <=? x) = sf_nonneg (Prim2SF x).
Proof.
  rewrite leb_spec. change (Prim2SF 0) with (S754_zero false).
  unfold SFleb. destruct (Prim2SF x) as [s|s| |s m e]; cbn;
    try destruct s; reflexivity.
Qed.

(** Shifting right keeps a mantissa non-negative. *)
Lemma shr_1_nonneg (mrs : shr_record) :
  (0 <= shr_m mrs)%Z -> (0 <= shr_m (shr_1 mrs))%Z.
Proof.
  destruct mrs as [m r s]. cbn [shr_m shr_1].
  destruct m as [|p|p]; [| |lia]; intros _.
  - cbn. lia.
  - destruct p; cbn; lia.
Qed.

Lemma iter_pos_nonneg (n : positive) (mrs : shr_record) :
  (0 <= shr_m mrs)%Z -> (0 <= shr_m (iter_pos shr_1 n mrs))%Z.
Proof.
  revert mrs. induction n as [n IH|n IH|]; intros mrs Hm; cbn [iter_pos].
  - apply IH, IH, shr_1_nonneg, Hm.
  - apply IH, IH, Hm.
  - apply shr_1_nonneg, Hm.
Qed.

Lemma shr_fexp_nonneg (m e : Z) (l : location) :
  (0 <= m)%Z -> (0 <= shr_m (fst (shr_fexp prec emax m e l)))%Z.
Proof.
  intros Hm. unfold shr_fexp, shr.
  assert (H0 : (0 <= shr_m (shr_record_of_loc m l))%Z)
    by (destruct l as [|[]]; exact Hm).
  destruct (fexp prec emax (Zdigits2 m + e) - e)%Z; cbn [fst];
    [exact H0 | apply iter_pos_nonneg, H0 | exact H0].
Qed.

Lemma round_nearest_even_nonneg (m : Z) (l : location) :
  (0 <= m)%Z -> (0 <= round_nearest_even m l)%Z.
Proof.
  intros Hm. unfold round_nearest_even.
  destruct l as [|[]]; [lia | | lia | lia].
  destruct (Z.even m); lia.
Qed.

(** Rounding a non-negative mantissa with a clear sign bit gives a
    non-negative value. *)
Lemma binary_round_aux_nonneg (m e : Z) (l : location) :
  (0 <= m)%Z -> sf_nonneg (binary_round_aux prec emax false m e l) = true.
Proof.
  intros Hm. unfold binary_round_aux.
  pose proof (shr_fexp_nonneg m e l Hm) as H1.
  destruct (shr_fexp prec emax m e l) as [mrs' e']. cbn [fst] in H1.
  pose proof (shr_fexp_nonneg
                (round_nearest_even (shr_m mrs') (loc_of_shr_record mrs'))
                e' loc_Exact (round_nearest_even_nonneg _ _ H1)) as H2.
  destruct (shr_fexp prec emax
              (round_nearest_even (shr_m mrs') (loc_of_shr_record mrs'))
              e' loc_Exact) as [mrs'' e'']. cbn [fst] in H2.
  destruct (shr_m mrs'') as [|p|p]; [reflexivity | | lia].
  destruct (e'' <=? emax - prec)%Z; reflexivity.
Qed.

Lemma SFadd_nonneg (x y : spec_float) :
  sf_nonneg x = true -> sf_nonneg y = true ->
  sf_nonneg (SF64add x y) = true.
Proof.
  unfold SF64add, SFadd.
  destruct x as [sx|sx| |sx mx ex], y as [sy|sy| |sy my ey];
    cbn [sf_nonneg]; intros Hx Hy; try discriminate;
    try (apply negb_true_iff in Hx; subst sx);
    try (apply negb_true_iff in Hy; subst sy);
    try reflexivity.
  - destruct sx, sy; reflexivity.
  - cbv zeta. cbn [cond_Zopp]. unfold binary_normalize, binary_round.
    cbn [Z.add].
    match goal with
    | |- context [shl_align ?a ?b ?c] =>
        destruct (shl_align a b c) as [mz ez'] end.
    apply binary_round_aux_nonneg. lia.
Qed.

(** The sum of two floats that are at least zero is at least zero. *)
Lemma add_nonneg (a b : float) :
  (0 <=? a) = true -> (0 <=? b) = true -> (0 <=? a + b) = true.
Proof.
  rewrite !leb_zero_nonneg, add_spec. apply SFadd_nonneg.
Qed.

(** Comparison through zero. *)
Lemma leb_through_zero (s c : float) :
  (s <=? 0) = true -> (0 <=? c) = true -> (s <=? c) = true.
Proof.
  rewrite leb_zero_nonneg, !leb_spec.
  change (Prim2SF 0) with (S754_zero false). unfold SFleb.
  destruct (Prim2SF s) as [ss|ss| |ss ms es],
           (Prim2SF c) as [sc|sc| |sc mc ec];
    cbn [SFcompare sf_nonneg];
    try destruct ss; try destruct sc; intros Hs Hc;
    try reflexivity; try discriminate.
Qed.

End FloatMore.

(** * Further properties of the trace generator *)

Section TraceMore.

Import Trace.

#[local] Open Scope float_scope.

Variable py_int : string -> option Z.
Variable py_float : string -> option float.

Notation parse_row := (Trace.parse_row py_int py_float).
Notation data_rows := (Trace.data_rows py_int py_float).
Notation malformed := (Trace.malformed py_int py_float).
Notation well_formed := (fun row => negb (Trace.malformed py_int py_float row)).
Notation init := (Trace.__init__ py_int py_float).

(** The retained rows are data rows. *)
Lemma retained_incl (start_time : float) (data : list burst) (b : burst) :
  In b (retained start_time data) -> In b data.
Proof.
  unfold retained. intros Hin. apply in_map_iff in Hin as ([i d] & <- & Hin).
  apply filter_In in Hin as [Hin _]. apply in_combine_r in Hin. exact Hin.
Qed.

(** The first data row starts at time zero. *)
Lemma retained_head (start_time : float) (d : burst) (data : list burst) :
  exists later,
    retained start_time (d :: data)
    = (if start_time <=? 0 then [d] else []) ++ later.
Proof.
  unfold retained. cbn [List.length seq combine filter fst].
  change (cumulative_before (d :: data) 0) with 0.
  destruct (start_time <=? 0); cbn [map snd app]; eauto.
Qed.

(** The data rows of a file without malformed rows have no negative
    period. *)
Lemma data_rows_periods (rows : list (list string)) :
  forallb well_formed rows = true ->
  Forall (fun d : burst => (snd d <? 0) = false) (data_rows rows).
Proof.
  induction rows as [|row rows IH]; [constructor|].
  cbn [forallb]. intros Hwf. apply andb_true_iff in Hwf as [Hrow Hrows].
  rewrite (data_rows_cons py_int py_float row rows).
  apply Forall_app. split; [|apply IH, Hrows].
  apply negb_true_iff in Hrow. unfold Trace.data_rows. cbn [flat_map].
  rewrite app_nil_r.
  destruct (comment row) eqn:Hc.
  - rewrite (parse_row_comment py_int py_float row Hc). constructor.
  - destruct row as [|first rest]; [discriminate|].
    revert Hrow. unfold Trace.malformed. rewrite Hc. cbn [negb andb].
    rewrite (parse_row_data py_int py_float first rest Hc).
    destruct (py_int (strip first)); [|discriminate].
    destruct rest as [|second rest]; [discriminate|].
    destruct (py_float (strip second)); [|discriminate].
    intros Hneg. repeat constructor. exact Hneg.
Qed.

(** X7. A generator that was constructed has a next burst: the first call
    of [generate_burst] returns the first retained row and does not raise. *)
Theorem trace_fresh_has_next
    (rows : list (list string)) (start_time : float)
    (g : TraceFileBurstGenerator) :
  init rows start_time = Ok g ->
  has_next_burst g = true
  /\ exists b g',
       generate_burst g = Ok (b, g')
       /\ _bursts g = b :: _bursts g'
       /\ In b (data_rows rows).
Proof.
  intros Hrun.
  apply (init_ok_iff py_int py_float) in Hrun as (_ & Hne & ->).
  unfold has_next_burst, generate_burst.
  cbn [loaded self _bursts _start_time _trace_duration].
  destruct (retained start_time (data_rows rows)) as [|b bs] eqn:Hret;
    [contradiction|].
  split; [reflexivity|].
  eexists _, _. split; [reflexivity|]. split; [reflexivity|].
  apply (retained_incl start_time). rewrite Hret. left. reflexivity.
Qed.

(** X8. Replay is first-in first-out and ends in exhaustion: as many calls
    of [generate_burst] as there are bursts return them in queue order and
    leave a generator without a next burst, whose duration is unchanged and
    on which a further call raises; [generate_burst] raises exactly when
    [has_next_burst] is false. *)
Theorem trace_replay_fifo (g : TraceFileBurstGenerator) :
  (exists g',
     generate_bursts (List.length (_bursts g)) g = Ok (_bursts g, g')
     /\ has_next_burst g' = false
     /\ generate_burst g' = Raise Exhausted
     /\ trace_duration g' = trace_duration g)
  /\ generate_bursts (S (List.length (_bursts g))) g = Raise Exhausted
  /\ (has_next_burst g = false <-> generate_burst g = Raise Exhausted).
Proof.
  assert (Hdrain : forall bs st dur,
             generate_bursts (List.length bs)
               {| _start_time := st; _bursts := bs; _trace_duration := dur |}
             = Ok (bs, {| _start_time := st; _bursts := [];
                          _trace_duration := dur |})).
  { induction bs as [|b bs IH]; intros st dur; [reflexivity|].
    cbn [List.length generate_bursts generate_burst _bursts _start_time
         _trace_duration].
    rewrite IH. reflexivity. }
  assert (Hover : forall bs st dur,
             generate_bursts (S (List.length bs))
               {| _start_time := st; _bursts := bs; _trace_duration := dur |}
             = Raise Exhausted).
  { induction bs as [|b bs IH]; intros st dur; [reflexivity|].
    cbn [List.length]. cbn [generate_bursts] in *.
    cbn [generate_burst _bursts _start_time _trace_duration] in *.
    rewrite IH. reflexivity. }
  destruct g as [st bs dur]. cbn [_bursts]. split; [|split].
  - eexists. split; [apply Hdrain|]. repeat split.
  - apply Hover.
  - unfold has_next_burst, generate_burst. cbn [_bursts].
    destruct bs; split; intros H; try reflexivity; discriminate.
Qed.

(** X9. With a start time of at most zero (the default is 0.0) the first
    data row is retained, so a file that has a data row and no malformed row
    loads and its first burst is its first data row; and a file without data
    rows raises the empty-trace error whatever the start time. *)
Theorem trace_start_zero_loads
    (rows : list (list string)) (start_time : float) :
  existsb malformed rows = false ->
  (forall d data,
     data_rows rows = d :: data -> (start_time <=? 0) = true ->
     exists g later, init rows start_time = Ok g /\ _bursts g = d :: later)
  /\ (data_rows rows = [] ->
      init rows start_time = Raise (NoBursts start_time)).
Proof.
  intros Hex. apply (no_malformed py_int py_float) in Hex.
  rewrite (init_well_formed py_int py_float rows start_time Hex). split.
  - intros d data Hdata Hstart. rewrite Hdata.
    destruct (retained_head start_time d data) as (later & Hret).
    rewrite Hstart in Hret. cbn [app] in Hret. rewrite Hret.
    eexists _, later. split; [reflexivity|].
    cbn [loaded self _bursts]. exact Hret.
  - intros ->. reflexivity.
Qed.

(** X10. Every burst of a constructed generator is a data row of the file,
    and its period is not negative. *)
Theorem trace_bursts_valid
    (rows : list (list string)) (start_time : float)
    (g : TraceFileBurstGenerator) :
  init rows start_time = Ok g ->
  Forall (fun b : burst => In b (data_rows rows) /\ (snd b <? 0) = false)
         (_bursts g).
Proof.
  intros Hrun.
  apply (init_ok_iff py_int py_float) in Hrun as (Hwf & _ & ->).
  cbn [loaded self _bursts]. apply Forall_forall. intros b Hb.
  apply retained_incl in Hb. split; [exact Hb|].
  pose proof (data_rows_periods rows Hwf) as Hall.
  rewrite Forall_forall in Hall. apply Hall, Hb.
Qed.

(** ** Periods that are NaN, and start times of at most zero *)

Lemma fsum_app (ps qs : list float) :
  fsum (ps ++ qs) = fold_left PrimFloat.add qs (fsum ps).
Proof. unfold fsum. apply fold_left_app. Qed.

Lemma fold_add_nan (ps : list float) : fold_left PrimFloat.add ps nan = nan.
Proof.
  induction ps as [|p ps IH]; [reflexivity|].
  cbn [fold_left]. rewrite add_nan_l. exact IH.
Qed.

Lemma fold_add_nonneg (ps : list float) :
  forall acc : float,
  (0 <=? acc) = true ->
  Forall (fun p => (0 <=? p) = true) ps ->
  (0 <=? fold_left PrimFloat.add ps acc) = true.
Proof.
  induction ps as [|p ps IH]; intros acc Hacc Hall; [exact Hacc|].
  cbn [fold_left]. inversion Hall as [|? ? Hp Hps]; subst.
  apply IH; [apply add_nonneg; assumption | exact Hps].
Qed.

(** Once the cumulative time is a NaN no further row is retained. *)
Lemma retained_after_nan (start_time : float) (seen later : list burst) :
  fsum (map snd seen) = nan ->
  retained start_time (seen ++ later) = retained start_time seen.
Proof.
  intros Hnan. induction later as [|d later IH] using rev_ind.
  - rewrite app_nil_r. reflexivity.
  - rewrite app_assoc, retained_snoc, IH.
    rewrite map_app, fsum_app. unfold burst in *.
    rewrite Hnan, fold_add_nan, leb_nan_r.
    apply app_nil_r.
Qed.

(** With a start time of at most zero and periods of at least zero every
    row is retained. *)
Lemma retained_all (start_time : float) (data : list burst) :
  (start_time <=? 0) = true ->
  Forall (fun d : burst => (0 <=? snd d) = true) data ->
  retained start_time data = data.
Proof.
  intros Hstart. induction data as [|d data IH] using rev_ind;
    [reflexivity|].
  intros Hall. apply Forall_app in Hall as [Hdata _].
  rewrite retained_snoc, (IH Hdata).
  replace (start_time <=? fsum (map snd data)) with true; [reflexivity|].
  symmetry. apply leb_through_zero; [exact Hstart|].
  apply fold_add_nonneg; [reflexivity|].
  apply Forall_map. exact Hdata.
Qed.

(** X11. A period that is a NaN passes the validation, and from the row
    that carries it on the cumulative time is a NaN: no later row is
    retained, whatever the start time. The bursts of the generator are those
    of the file cut after that row. *)
Theorem trace_nan_period_drops_rest
    (pre post : list (list string)) (row : list string) (burst_size : Z)
    (start_time : float) (g : TraceFileBurstGenerator) :
  parse_row row = Data burst_size nan ->
  init (pre ++ row :: post) start_time = Ok g ->
  _bursts g = retained start_time (data_rows (pre ++ [row]))
  /\ Forall (fun b => In b (data_rows pre) \/ b = (burst_size, nan))
            (_bursts g).
Proof.
  intros Hrow Hrun.
  apply (init_ok_iff py_int py_float) in Hrun as (_ & _ & ->).
  cbn [loaded self _bursts].
  assert (Hcut : data_rows (pre ++ [row]) = data_rows pre ++ [(burst_size, nan)]).
  { rewrite (data_rows_app py_int py_float). f_equal.
    unfold Trace.data_rows. cbn [flat_map]. rewrite Hrow. reflexivity. }
  assert (Hfull : data_rows (pre ++ row :: post)
                  = data_rows (pre ++ [row]) ++ data_rows post).
  { change (row :: post) with ([row] ++ post).
    rewrite app_assoc. apply (data_rows_app py_int py_float). }
  assert (Hret : retained start_time (data_rows (pre ++ row :: post))
                 = retained start_time (data_rows (pre ++ [row]))).
  { rewrite Hfull. apply retained_after_nan.
    rewrite Hcut, map_app. cbn [map snd]. rewrite fsum_snoc.
    apply add_nan_r. }
  split; [exact Hret|].
  rewrite Hret, Hcut. apply Forall_forall. intros b Hb.
  apply retained_incl, in_app_or in Hb as [Hb|[<-|[]]]; auto.
Qed.

(** X12. With a start time of at most zero (the default is 0.0) and no
    period that is a NaN, a file that loads is replayed whole: the bursts
    are all its data rows, in file order, and the duration is the sum of
    all their periods. *)
Theorem trace_start_zero_keeps_all
    (rows : list (list string)) (start_time : float)
    (g : TraceFileBurstGenerator) :
  init rows start_time = Ok g ->
  (start_time <=? 0) = true ->
  Forall (fun d : burst => snd d <> nan) (data_rows rows) ->
  _bursts g = data_rows rows
  /\ trace_duration g = fsum (map snd (data_rows rows)).
Proof.
  intros Hrun Hstart Hnan.
  apply (init_ok_iff py_int py_float) in Hrun as (Hwf & _ & ->).
  unfold trace_duration. cbn [loaded self _bursts _trace_duration].
  assert (Hall : Forall (fun d : burst => (0 <=? snd d) = true)
                        (data_rows rows)).
  { pose proof (data_rows_periods rows Hwf) as Hneg.
    rewrite Forall_forall in *. intros d Hd.
    apply not_below_zero; [|apply Hneg, Hd].
    intros Hsf. apply (Hnan d Hd), Prim2SF_nan, Hsf. }
  rewrite (retained_all start_time _ Hstart Hall). split; reflexivity.
Qed.

End TraceMore.

(** ** The trace generator on concrete files *)

Lemma trace_fresh_has_next_witness :
  Trace.has_next_burst
    {| Trace._start_time := 0.015%float;
       Trace._bursts := [(300, 0.01%float)];
       Trace._trace_duration := 0.01%float |} = true.
Proof.
  apply (trace_fresh_has_next Trace.dec_int Trace.dec_float
           [["100"; "0.0"]; ["5000"; "0.02"]; ["300"; "0.01"]]%string
           0.015%float).
  vm_compute. reflexivity.
Defined.

Lemma trace_start_zero_loads_witness :
  Trace.__init__ Trace.dec_int Trace.dec_float
    [["# size, period"]; []]%string 0%float
  = Raise (Trace.NoBursts 0%float).
Proof.
  apply (trace_start_zero_loads Trace.dec_int Trace.dec_float
           [["# size, period"]; []]%string 0%float).
  - vm_compute. reflexivity.
  - vm_compute. reflexivity.
Defined.

Lemma trace_bursts_valid_witness :
  Forall (fun b : Trace.burst =>
            In b (Trace.data_rows Trace.dec_int Trace.dec_float
                    [["100"; "0.0"]; ["5000"; "0.02"]; ["300"; "0.01"]]%string)
            /\ (snd b <? 0)%float = false)
         [(300, 0.01%float)].
Proof.
  apply (trace_bursts_valid Trace.dec_int Trace.dec_float
           [["100"; "0.0"]; ["5000"; "0.02"]; ["300"; "0.01"]]%string
           0.015%float
           {| Trace._start_time := 0.015%float;
              Trace._bursts := [(300, 0.01%float)];
              Trace._trace_duration := 0.01%float |}).
  vm_compute. reflexivity.
Defined.

Lemma trace_nan_period_drops_rest_witness :
  Trace._bursts
    {| Trace._start_time := 0%float;
       Trace._bursts := [(100, 0.0%float); (5, nan)];
       Trace._trace_duration := nan |}
  = Trace.retained 0%float
      (Trace.data_rows Trace.dec_int Trace.dec_float_nan
         ([["100"; "0.0"]]%string ++ [["5"; "nan"]]%string)).
Proof.
  apply (trace_nan_period_drops_rest Trace.dec_int Trace.dec_float_nan
           [["100"; "0.0"]]%string [["300"; "0.01"]]%string
           ["5"; "nan"]%string 5 0%float).
  - vm_compute. reflexivity.
  - vm_compute. reflexivity.
Defined.

Lemma trace_start_zero_keeps_all_witness :
  Trace._bursts
    {| Trace._start_time := 0%float;
       Trace._bursts := [(100, 0.0%float); (5000, 0.02%float); (300, 0.01%float)];
       Trace._trace_duration := 0.03%float |}
  = Trace.data_rows Trace.dec_int Trace.dec_float
      [["100"; "0.0"]; ["5000"; "0.02"]; ["300"; "0.01"]]%string.
Proof.
  apply (trace_start_zero_keeps_all Trace.dec_int Trace.dec_float
           [["100"; "0.0"]; ["5000"; "0.02"]; ["300"; "0.01"]]%string
           0%float).
  - vm_compute. reflexivity.
  - reflexivity.
  - vm_compute.
    repeat constructor; cbn [snd]; intros H;
      apply (f_equal PrimFloat.is_nan) in H; vm_compute in H; discriminate H.
Defined.

(** * Further properties of the statistical source *)

Section VrMore.

Import Vr.

#[local] Open Scope float_scope.

Variable math_log : float -> result math_error float.
Variable libm_pow : float -> float -> result math_error float.

Notation sample := (Vr.sample math_log).
Notation sample_int := (Vr.sample_int math_log).
Notation generate_burst := (Vr.generate_burst math_log).
Notation math_pow := (Vr.math_pow libm_pow).
Notation vr_init := (Vr.__init__ libm_pow).
Notation setup := (Vr._setup_model libm_pow).

Lemma sub_nan_r (x : float) : x - nan = nan.
Proof.
  apply Prim2SF_inj. rewrite sub_spec. change (Prim2SF nan) with S754_nan.
  destruct (Prim2SF x); reflexivity.
Qed.

(** An absolute value is never at most a negative bound. *)
Lemma abs_leb_negative (y b : float) : (b <? 0) = true -> (abs y <=? b) = false.
Proof.
  rewrite ltb_spec, leb_spec, abs_spec.
  change (Prim2SF 0) with (S754_zero false). unfold SFltb, SFleb.
  destruct (Prim2SF y) as [sy|sy| |sy my ey],
           (Prim2SF b) as [sb|sb| |sb mb eb];
    cbn [SFabs SFcompare]; try destruct sb; intros Hb;
    try reflexivity; discriminate.
Qed.

(** No candidate is accepted when the location or the bound is a NaN, or
    the bound is negative. *)
Lemma never_accepted (rv : LogisticRandomVariable) (x : float) :
  location rv = nan \/ bound rv = nan \/ (bound rv <? 0) = true ->
  (abs (x - location rv) <=? bound rv) = false.
Proof.
  intros [Hloc|[Hbound|Hneg]].
  - rewrite Hloc, sub_nan_r. apply leb_nan_l.
  - rewrite Hbound. apply leb_nan_r.
  - apply abs_leb_negative, Hneg.
Qed.

(** X13. [sample] never returns when the location or the bound is a NaN or
    the bound is negative: every candidate is rejected, so the call loops for
    as long as there are draws (or raises what [math.log] raises). *)
Theorem sample_never_returns
    (rv : LogisticRandomVariable) (draws rest : list float) (x : float) :
  location rv = nan \/ bound rv = nan \/ (bound rv <? 0) = true ->
  sample rv draws <> Returns x rest.
Proof.
  intros Hbad Hrun.
  destruct (sample_returns math_log rv draws rest x Hrun)
    as (u & odds & l & _ & _ & _ & _ & _ & Haccept).
  rewrite (never_accepted rv x Hbad) in Haccept. discriminate Haccept.
Qed.

(** [_setup_model] raises only what [math] raises or a missing-coefficient
    error. *)
Lemma setup_raises (g : VrBurstGenerator) (e : error) :
  setup g = Raise e ->
  (exists m, e = Math m)
  \/ e = MissingGamma (_app g) \/ e = MissingDeltaEpsilon (_app g).
Proof.
  unfold Vr._setup_model.
  destruct (float_div (_target_rate_bps g / 8) (_frame_rate g)) as [a|m];
    cbn [Vr.bind]; [|intros H; left; exists m; congruence].
  destruct (float_div 1 (_frame_rate g)) as [b|m];
    cbn [Vr.bind]; [|intros H; left; exists m; congruence].
  destruct (math_pow (_target_rate_bps g / 1e6) (beta (_VR_MODELS (_app g))))
    as [p|m]; cbn [Vr.bind]; [|intros H; left; exists m; congruence].
  destruct (_frame_rate g =? 60).
  - destruct (gamma (_VR_MODELS (_app g))); [discriminate|].
    intros H. right. left. congruence.
  - destruct (delta (_VR_MODELS (_app g))), (epsilon (_VR_MODELS (_app g)));
      try (intros H; right; right; congruence).
    destruct (math_pow (_target_rate_bps g / 1e6) f0) as [q|m];
      cbn [Vr.bind]; [discriminate|].
    intros H. left. exists m. congruence.
Qed.

(** What a constructed generator holds: the frame rate was 30 or 60, the
    frame-size sampler is centred on [rate / 8 / frame_rate] and the period
    sampler on [1 / frame_rate], each with a bound equal to its location. *)
Lemma init_samplers
    (app : VrAppName) (frame_rate target_data_rate_bps : float)
    (g : VrBurstGenerator) :
  vr_init app frame_rate target_data_rate_bps = Ok g ->
  (frame_rate = 30 \/ frame_rate = 60)
  /\ (target_data_rate_bps <=? 0) = false
  /\ exists frame_rv period_rv,
       _frame_rv g = Some frame_rv
       /\ _period_rv g = Some period_rv
       /\ location frame_rv = target_data_rate_bps / 8 / frame_rate
       /\ bound frame_rv = target_data_rate_bps / 8 / frame_rate
       /\ location period_rv = 1 / frame_rate
       /\ bound period_rv = 1 / frame_rate.
Proof.
  unfold Vr.__init__.
  destruct ((frame_rate =? 30) || (frame_rate =? 60)) eqn:Hfr;
    cbn [negb]; [|discriminate].
  destruct (target_data_rate_bps <=? 0) eqn:Hrate; [discriminate|].
  assert (Hrate_cases : frame_rate = 30 \/ frame_rate = 60).
  { apply orb_true_iff in Hfr as [H30|H60].
    - left. apply (eqb_finite _ _ false 8444249301319680 (-48)%Z);
        [vm_compute; reflexivity | exact H30].
    - right. apply (eqb_finite _ _ false 8444249301319680 (-47)%Z);
        [vm_compute; reflexivity | exact H60]. }
  intros Hrun. split; [exact Hrate_cases|]. split; [reflexivity|].
  revert Hrun. unfold Vr._setup_model.
  cbn [_app _frame_rate _target_rate_bps _frame_rv _period_rv].
  assert (Hdiv : forall x, float_div x frame_rate = Ok (x / frame_rate)).
  { intros x. unfold float_div.
    destruct Hrate_cases as [-> | ->]; reflexivity. }
  rewrite !Hdiv. cbn [Vr.bind].
  destruct (math_pow (target_data_rate_bps / 1e6) (beta (_VR_MODELS app)))
    as [p|m]; cbn [Vr.bind]; [|discriminate].
  destruct (frame_rate =? 60).
  - destruct (gamma (_VR_MODELS app)); [|discriminate].
    intros Hrun. assert (Hg := f_equal (fun r => match r with
                                                 | Ok g0 => Some g0
                                                 | Raise _ => None end) Hrun).
    cbv beta iota in Hg. injection Hg as <-.
    eexists _, _. repeat split; reflexivity.
  - destruct (delta (_VR_MODELS app)), (epsilon (_VR_MODELS app));
      try discriminate.
    destruct (math_pow (target_data_rate_bps / 1e6) f0) as [q|m];
      cbn [Vr.bind]; [|discriminate].
    intros Hrun. assert (Hg := f_equal (fun r => match r with
                                                 | Ok g0 => Some g0
                                                 | Raise _ => None end) Hrun).
    cbv beta iota in Hg. injection Hg as <-.
    eexists _, _. repeat split; reflexivity.
Qed.

(** X14. A target rate that is a NaN passes the validation (it is not at
    most zero), and a generator constructed with it never returns a burst:
    its frame-size sampler is centred on a NaN, so every candidate is
    rejected and [generate_burst] loops. *)
Theorem vr_nan_rate_never_generates
    (app : VrAppName) (frame_rate : float) :
  vr_init app frame_rate nan <> Raise BadTargetRate
  /\ forall g, vr_init app frame_rate nan = Ok g ->
     forall draws rest burst,
       generate_burst g draws <> Returns burst rest.
Proof.
  split.
  - unfold Vr.__init__.
    destruct (negb ((frame_rate =? 30) || (frame_rate =? 60)));
      [discriminate|].
    change (nan <=? 0) with false. cbv iota. intros Hrun.
    apply setup_raises in Hrun as [(m & Hm)|[Hm|Hm]]; discriminate Hm.
  - intros g Hrun draws rest burst Hgen.
    destruct (init_samplers app frame_rate nan g Hrun)
      as (Hfr & _ & frame_rv & period_rv & Hframe & Hperiod & Hloc & _).
    assert (Hnan : location frame_rv = nan).
    { rewrite Hloc. destruct Hfr as [-> | ->]; reflexivity. }
    unfold Vr.generate_burst in Hgen. rewrite Hframe, Hperiod in Hgen.
    unfold Vr.sample_int in Hgen.
    destruct (sample frame_rv draws) as [x mid| |] eqn:Hsample;
      try discriminate Hgen.
    destruct (sample_returns math_log frame_rv draws mid x Hsample)
      as (u & odds & l & _ & _ & _ & _ & _ & Haccept).
    rewrite (never_accepted frame_rv x (or_introl Hnan)) in Haccept.
    discriminate Haccept.
Qed.

(** X15. The two argument checks of the constructor, in order: it raises
    the frame-rate error exactly when the frame rate is neither 30 nor 60,
    whatever the target rate; and the target-rate error exactly when the
    frame rate is 30 or 60 and the target rate is at most zero. *)
Theorem vr_init_validation
    (app : VrAppName) (frame_rate target_data_rate_bps : float) :
  (vr_init app frame_rate target_data_rate_bps = Raise BadFrameRate
   <-> ((frame_rate =? 30) || (frame_rate =? 60)) = false)
  /\ (vr_init app frame_rate target_data_rate_bps = Raise BadTargetRate
      <-> ((frame_rate =? 30) || (frame_rate =? 60)) = true
          /\ (target_data_rate_bps <=? 0) = true).
Proof.
  unfold Vr.__init__.
  destruct ((frame_rate =? 30) || (frame_rate =? 60)); cbn [negb].
  - destruct (target_data_rate_bps <=? 0);
      split; split; intros H;
      try reflexivity; try discriminate H;
      try (apply proj2 in H; discriminate H);
      try (split; reflexivity);
      apply setup_raises in H as [(m & Hm)|[Hm|Hm]]; discriminate Hm.
  - split; split; intros H;
      try reflexivity; try discriminate H;
      apply proj1 in H; discriminate H.
Qed.

End VrMore.

Section VrNames.

Import Vr.

(** X16. The enumeration by value: [VrAppName(app.value)] is [app]; a
    string that [VrAppName] accepts is the value of the member it gives; and
    the strings [available_vr_apps] lists, which are pairwise distinct, are
    exactly those that [VrAppName] accepts. *)
Theorem vr_app_names_round_trip :
  (forall app, of_value (value app) = Some app)
  /\ (forall s app, of_value s = Some app -> value app = s)
  /\ (forall s, In s available_vr_apps <-> of_value s <> None)
  /\ NoDup available_vr_apps.
Proof.
  assert (Hto : forall app, of_value (value app) = Some app)
    by (intros []; reflexivity).
  assert (Hfrom : forall s app, of_value s = Some app -> value app = s).
  { intros s app Hfind. unfold of_value in Hfind.
    apply find_some in Hfind as [_ Heq]. apply String.eqb_eq, Heq. }
  split; [exact Hto|]. split; [exact Hfrom|]. split.
  - intros s. split.
    + intros Hin. unfold available_vr_apps in Hin.
      apply in_map_iff in Hin as (app & <- & _). rewrite Hto. discriminate.
    + intros Hsome. destruct (of_value s) as [app|] eqn:Hfind;
        [|contradiction].
      apply Hfrom in Hfind as <-. unfold available_vr_apps.
      apply in_map. destruct app; cbn; auto.
  - unfold available_vr_apps, members. cbn [map value].
    repeat constructor; cbn [In]; intros H;
      repeat destruct H as [H|H]; try discriminate H; exact H.
Qed.

End VrNames.

(** With a NaN rate the construction succeeds and the generator loops. *)
Example vr_nan_rate_spins :
  exists g,
    Vr.__init__ Vr.pow1 Vr.VirusPopper 60%float nan = Ok g
    /\ Vr.generate_burst Vr.ln1 g [0.5; 0.25; 0.75]%float = Vr.Spins.
Proof.
  eexists. split; vm_compute; reflexivity.
Qed.

Lemma sample_never_returns_witness :
  Vr.sample Vr.ln1 (Vr.mkLogistic 10 2 (Some (-1)%float)) [0.5]%float
  <> Vr.Returns 10%float [].
Proof.
  apply (sample_never_returns Vr.ln1).
  right. right. reflexivity.
Defined.

(** * Properties of the sending loop *)

Section SenderFacts.

Import Sender.

#[local] Open Scope Z_scope.

Variable clock : nat -> Z.
Variable fragment_size : Z.
Variable max_bursts : option Z.

Notation send_fragments := (Sender.send_fragments clock).
Notation send_burst := (Sender.send_burst clock fragment_size).
Notation pump := (Sender.pump clock fragment_size max_bursts).
Notation burst_datagrams := (Sender.burst_datagrams clock).

Lemma firstn_zeros (k n : nat) :
  firstn k (repeat 0 n) = repeat 0 (Nat.min k n).
Proof.
  revert n. induction k as [|k IH]; intros [|n]; cbn; try reflexivity.
  rewrite IH. reflexivity.
Qed.

Lemma skipn_zeros (k n : nat) : skipn k (repeat 0 n) = repeat 0 (n - k).
Proof.
  revert n. induction k as [|k IH]; intros [|n]; cbn; try reflexivity.
  apply IH.
Qed.

(** A slice inside a buffer of zeros. *)
Lemma py_slice_zeros (offset len n : Z) :
  0 <= offset -> 0 <= len -> offset + len <= n ->
  py_slice offset (offset + len) (repeat 0 (Z.to_nat n))
  = repeat 0 (Z.to_nat len).
Proof.
  intros Hoff Hlen Hfit. unfold py_slice, clamp_index.
  rewrite repeat_length, Z2Nat.id by lia.
  replace (offset <? 0) with false by (symmetry; apply Z.ltb_ge; lia).
  replace (offset + len <? 0) with false by (symmetry; apply Z.ltb_ge; lia).
  rewrite !Z.min_l by lia.
  rewrite skipn_zeros, firstn_zeros. f_equal. lia.
Qed.

Lemma datagrams_app (xs ys : list event) :
  datagrams (xs ++ ys) = datagrams xs ++ datagrams ys.
Proof. unfold datagrams. apply flat_map_app. Qed.

Lemma burst_seqs_app (xs ys : list event) :
  burst_seqs (xs ++ ys) = burst_seqs xs ++ burst_seqs ys.
Proof. unfold burst_seqs. apply flat_map_app. Qed.

Lemma sleeps_app (xs ys : list event) :
  sleeps (xs ++ ys) = sleeps xs ++ sleeps ys.
Proof. unfold sleeps. apply flat_map_app. Qed.

Lemma zsum_nonneg (xs : list Z) : Forall (fun p => 0 <= p) xs -> 0 <= zsum xs.
Proof.
  unfold zsum. induction 1 as [|x xs Hx _ IH]; cbn [fold_right]; lia.
Qed.

(** The inner loop: whatever its outcome, the datagrams sent are the
    expected datagrams of the first [k] fragments; when it completes, [k] is
    the number of fragments and one clock reading was taken for each. *)
Lemma send_fragments_spec (total_frags burst_payload burst_seq : Z)
    (payloads : list Z) :
  forall (frag_idx offset : Z) (tick : nat) (events : list event)
         (r : result error nat),
  0 <= offset ->
  Forall (fun p => 0 <= p) payloads ->
  offset + zsum payloads <= burst_payload ->
  send_fragments total_frags burst_payload burst_seq
    (repeat 0 (Z.to_nat burst_payload)) frag_idx offset tick payloads
  = (events, r) ->
  exists k : nat,
    (k <= List.length payloads)%nat
    /\ datagrams events
       = burst_datagrams total_frags burst_payload burst_seq frag_idx tick
           (firstn k payloads)
    /\ burst_seqs events = []
    /\ sleeps events = []
    /\ (forall tick', r = Ok tick' ->
        k = List.length payloads
        /\ tick' = (tick + List.length payloads)%nat)
    /\ (forall e, r = Raise e -> e = HeaderError Codec.StructError).
Proof.
  induction payloads as [|p rest IH];
    intros frag_idx offset tick events r Hoff Hall Hfit Hrun.
  - cbn [Sender.send_fragments] in Hrun.
    assert (events = []) by congruence. assert (r = Ok tick) by congruence.
    subst. exists 0%nat.
    split; [reflexivity|]. split; [reflexivity|]. split; [reflexivity|].
    split; [reflexivity|]. split.
    + intros tick' Hr. assert (tick' = tick) by congruence. subst.
      cbn [List.length]. split; lia.
    + discriminate.
  - cbn [Sender.send_fragments] in Hrun.
    inversion Hall as [|? ? Hp Hrest]; subst.
    unfold zsum in Hfit. cbn [fold_right] in Hfit. fold (zsum rest) in Hfit.
    destruct (Codec.build_header (clock tick) frag_idx total_frags
                burst_payload burst_seq) as [[header ts]|[]] eqn:Hhead.
    + destruct (build_header_inv _ _ _ _ _ _ _ Hhead)
        as (_ & -> & -> & _).
      destruct (send_fragments total_frags burst_payload burst_seq
                  (repeat 0 (Z.to_nat burst_payload)) (frag_idx + 1)
                  (offset + p) (S tick) rest) as [later r'] eqn:Hlater.
      assert (Hoff' : 0 <= offset + p) by lia.
      assert (Hfit' : offset + p + zsum rest <= burst_payload) by lia.
      pose proof (zsum_nonneg rest Hrest) as Hrest0.
      destruct (IH _ _ _ _ _ Hoff' Hrest Hfit' Hlater)
        as (k & Hk & Hdata & Hseqs & Hsleeps & Hok & Herr).
      assert (events = SendTo ((Codec.be_bytes 2 frag_idx
                                ++ Codec.be_bytes 2 total_frags
                                ++ Codec.be_bytes 8 burst_payload
                                ++ Codec.be_bytes 4 burst_seq
                                ++ Codec.be_bytes 8 (clock tick))
                               ++ py_slice offset (offset + p)
                                    (repeat 0 (Z.to_nat burst_payload)))
                       :: FragmentTx frag_idx total_frags burst_seq
                            burst_payload
                            (Z.of_nat
                               (List.length
                                  ((Codec.be_bytes 2 frag_idx
                                    ++ Codec.be_bytes 2 total_frags
                                    ++ Codec.be_bytes 8 burst_payload
                                    ++ Codec.be_bytes 4 burst_seq
                                    ++ Codec.be_bytes 8 (clock tick))
                                   ++ py_slice offset (offset + p)
                                        (repeat 0 (Z.to_nat burst_payload)))))
                            (clock tick)
                       :: later) by congruence.
      assert (r = r') by congruence. subst events r.
      exists (S k). split; [cbn [List.length]; lia|].
      split; [|split; [|split; [|split]]].
      * cbn [datagrams flat_map app firstn Sender.burst_datagrams].
        fold (datagrams later). rewrite Hdata.
        rewrite py_slice_zeros by lia. reflexivity.
      * cbn [burst_seqs flat_map app]. exact Hseqs.
      * cbn [sleeps flat_map app]. exact Hsleeps.
      * intros tick' Hr. destruct (Hok tick' Hr) as [-> ->].
        cbn [List.length]. split; lia.
      * exact Herr.
    + assert (events = []) by congruence.
      assert (r = Raise (HeaderError Codec.StructError)) by congruence.
      subst. exists 0%nat.
      split; [cbn [List.length]; lia|]. split; [reflexivity|].
      split; [reflexivity|]. split; [reflexivity|]. split.
      * discriminate.
      * congruence.
Qed.

Lemma wire_header_length (ts i n bp seq : Z) :
  List.length (wire_header ts i n bp seq) = 24%nat.
Proof.
  unfold wire_header. rewrite !length_app, !be_bytes_length. reflexivity.
Qed.

(** The expected datagrams are 24 bytes longer than the payloads. *)
Lemma burst_datagrams_lengths (n bp seq : Z) (payloads : list Z) :
  forall (frag_idx : Z) (tick : nat),
  Forall (fun p => 0 <= p) payloads ->
  map (fun d => Z.of_nat (List.length d))
      (burst_datagrams n bp seq frag_idx tick payloads)
  = map (fun p => p + 24) payloads.
Proof.
  induction payloads as [|p rest IH]; intros frag_idx tick Hall;
    [reflexivity|].
  inversion Hall as [|? ? Hp Hrest]; subst.
  cbn [Sender.burst_datagrams map]. rewrite IH by exact Hrest.
  rewrite length_app, wire_header_length, repeat_length. f_equal. lia.
Qed.

Lemma burst_datagrams_count (n bp seq : Z) (payloads : list Z) :
  forall (frag_idx : Z) (tick : nat),
  List.length (burst_datagrams n bp seq frag_idx tick payloads)
  = List.length payloads.
Proof.
  induction payloads as [|p rest IH]; intros frag_idx tick; [reflexivity|].
  cbn [Sender.burst_datagrams List.length]. rewrite IH. reflexivity.
Qed.

Lemma Forall_firstn_of {A : Type} (P : A -> Prop) (k : nat) (xs : list A) :
  Forall P xs -> Forall P (firstn k xs).
Proof.
  intros Hall. rewrite <- (firstn_skipn k xs) in Hall.
  apply Forall_app in Hall as [Hfirst _]. exact Hfirst.
Qed.

(** One burst: either it cannot be fragmented and nothing happens, or it is
    announced and the datagrams sent are the expected datagrams of its first
    [k] fragments, all of them when the burst completes. *)
Lemma send_burst_spec (burst_size burst_seq : Z) (tick : nat)
    (events : list event) (r : result error nat) :
  send_burst burst_size burst_seq tick = (events, r) ->
  (exists e,
     Fragmenter.fragment_burst burst_size fragment_size = Raise e
     /\ events = [] /\ r = Raise (FragmentError e))
  \/ (exists burst_payload fragments (k : nat),
        Fragmenter.fragment_burst burst_size fragment_size
        = Ok (burst_payload, fragments)
        /\ (k <= List.length fragments)%nat
        /\ datagrams events
           = burst_datagrams (Z.of_nat (List.length fragments)) burst_payload
               burst_seq 0 (S tick) (firstn k fragments)
        /\ burst_seqs events = [burst_seq]
        /\ sleeps events = []
        /\ (forall tick', r = Ok tick' ->
            k = List.length fragments
            /\ tick' = (S tick + List.length fragments)%nat)
        /\ (forall e, r = Raise e -> e = HeaderError Codec.StructError)).
Proof.
  unfold Sender.send_burst.
  destruct (Fragmenter.fragment_burst burst_size fragment_size)
    as [[burst_payload fragments]|e] eqn:Hfrag.
  - destruct (fragment_burst_sound _ _ _ _ Hfrag)
      as (HB & HF & Hall & Hsum & Htotal & Hcount).
    assert (Hnonneg : Forall (fun p => 0 <= p) fragments).
    { eapply Forall_impl; [|exact Hall]. cbv beta. intros p Hp. lia. }
    pose proof (zsum_nonneg fragments Hnonneg) as Hpayload.
    unfold bytearray.
    replace (burst_payload <? 0) with false
      by (symmetry; apply Z.ltb_ge; lia).
    destruct (send_fragments (Z.of_nat (List.length fragments)) burst_payload
                burst_seq (repeat 0 (Z.to_nat burst_payload)) 0 0 (S tick)
                fragments) as [sent r'] eqn:Hsent.
    intros Hrun. right.
    assert (H0 : 0 <= 0) by lia.
    assert (Hfit : 0 + zsum fragments <= burst_payload) by lia.
    destruct (send_fragments_spec _ _ _ _ _ _ _ _ _ H0 Hnonneg Hfit Hsent)
      as (k & Hk & Hdata & Hseqs & Hsleeps & Hok & Herr).
    assert (events = BurstTx burst_seq burst_payload
                       (Z.of_nat (List.length fragments)) (clock tick) :: sent)
      by congruence.
    assert (r = r') by congruence. subst events r.
    exists burst_payload, fragments, k.
    split; [reflexivity|]. split; [exact Hk|].
    split; [exact Hdata|].
    split; [cbn [burst_seqs flat_map app]; fold (burst_seqs sent);
            rewrite Hseqs; reflexivity|].
    split; [exact Hsleeps|]. split; [exact Hok | exact Herr].
  - intros Hrun. left. exists e.
    split; [reflexivity|]. split; congruence.
Qed.

Lemma count_from_succ (start : Z) (n : nat) :
  count_from start (S n) = start :: count_from (start + 1) n.
Proof.
  unfold count_from. cbn [seq map]. f_equal; [lia|].
  rewrite <- seq_shift, map_map. apply map_ext. intros i. lia.
Qed.

Lemma count_from_app (start : Z) (n m : nat) :
  count_from start (n + m)
  = count_from start n ++ count_from (start + Z.of_nat n) m.
Proof.
  revert start. induction n as [|n IH]; intros start.
  - cbn [Nat.add count_from seq map app]. unfold count_from.
    apply map_ext. intros i. lia.
  - cbn [Nat.add]. rewrite !count_from_succ, IH. cbn [app]. do 2 f_equal.
    unfold count_from. apply map_ext. intros i. lia.
Qed.

Lemma eligible_cons_small (burst_size : Z) (period : float)
    (rest : list Trace.burst) :
  (burst_size <? Fragmenter.SEQTS_SIZE_FRAG_HEADER_LEN) = true ->
  eligible ((burst_size, period) :: rest) = eligible rest.
Proof. intros Hsmall. unfold eligible. cbn [filter fst]. rewrite Hsmall. reflexivity. Qed.

Lemma eligible_cons_large (burst_size : Z) (period : float)
    (rest : list Trace.burst) :
  (burst_size <? Fragmenter.SEQTS_SIZE_FRAG_HEADER_LEN) = false ->
  eligible ((burst_size, period) :: rest)
  = (burst_size, period) :: eligible rest.
Proof. intros Hlarge. unfold eligible. cbn [filter fst]. rewrite Hlarge. reflexivity. Qed.

(** The facts about one completed burst that the loop needs. *)
Lemma send_burst_done (burst_size burst_seq : Z) (tick tick' : nat)
    (events : list event) :
  send_burst burst_size burst_seq tick = (events, Ok tick') ->
  Forall (fun d => 24 <= Z.of_nat (List.length d) <= fragment_size)
         (datagrams events)
  /\ wire_total events = burst_size
  /\ burst_seqs events = [burst_seq]
  /\ sleeps events = [].
Proof.
  intros Hrun.
  destruct (send_burst_spec _ _ _ _ _ Hrun)
    as [(e & _ & _ & Hr)|(bp & frags & k & Hfrag & _ & Hdata & Hseqs
                          & Hsleeps & Hok & _)]; [discriminate|].
  destruct (Hok tick' eq_refl) as [-> _]. rewrite firstn_all in Hdata.
  destruct (fragment_burst_sound _ _ _ _ Hfrag)
    as (HB & HF & Hall & Hsum & Htotal & _).
  assert (Hnonneg : Forall (fun p => 0 <= p) frags).
  { eapply Forall_impl; [|exact Hall]. cbv beta. intros p Hp. lia. }
  pose proof (burst_datagrams_lengths (Z.of_nat (List.length frags)) bp
                burst_seq frags 0 (S tick) Hnonneg) as Hlens.
  rewrite <- Hdata in Hlens.
  split; [|split; [|split; assumption]].
  - apply Forall_forall. intros d Hd.
    apply (in_map (fun d => Z.of_nat (List.length d))) in Hd.
    rewrite Hlens in Hd. apply in_map_iff in Hd as (p & <- & Hp).
    rewrite Forall_forall in Hall. specialize (Hall p Hp). lia.
  - unfold wire_total. rewrite Hlens.
    assert (Hadd : forall xs, zsum (map (fun p => p + 24) xs)
                              = zsum xs + 24 * Z.of_nat (List.length xs)).
    { unfold zsum. induction xs as [|x xs IH];
        cbn [map fold_right List.length]; [reflexivity|].
      rewrite IH. lia. }
    rewrite Hadd. lia.
Qed.

(** The facts about one burst, completed or not. *)
Lemma send_burst_any (burst_size burst_seq : Z) (tick : nat)
    (events : list event) (r : result error nat) :
  send_burst burst_size burst_seq tick = (events, r) ->
  Forall (fun d => 24 <= Z.of_nat (List.length d) <= fragment_size)
         (datagrams events)
  /\ (burst_seqs events = [] \/ burst_seqs events = [burst_seq])
  /\ sleeps events = [].
Proof.
  intros Hrun.
  destruct (send_burst_spec _ _ _ _ _ Hrun)
    as [(e & _ & -> & _)|(bp & frags & k & Hfrag & _ & Hdata & Hseqs
                          & Hsleeps & _ & _)].
  - split; [constructor|]. split; [left|]; reflexivity.
  - split; [|split; [right; exact Hseqs | exact Hsleeps]].
    destruct (fragment_burst_sound _ _ _ _ Hfrag)
      as (HB & HF & Hall & _).
    assert (Hfirst : Forall (fun p => 0 <= p <= fragment_size - 24)
                            (firstn k frags))
      by (apply Forall_firstn_of, Hall).
    assert (Hnonneg : Forall (fun p => 0 <= p) (firstn k frags)).
    { eapply Forall_impl; [|exact Hfirst]. cbv beta. intros p Hp. lia. }
    pose proof (burst_datagrams_lengths (Z.of_nat (List.length frags)) bp
                  burst_seq (firstn k frags) 0 (S tick) Hnonneg) as Hlens.
    rewrite <- Hdata in Hlens.
    apply Forall_forall. intros d Hd.
    apply (in_map (fun d => Z.of_nat (List.length d))) in Hd.
    rewrite Hlens in Hd. apply in_map_iff in Hd as (p & <- & Hp).
    rewrite Forall_forall in Hfirst. specialize (Hfirst p Hp). lia.
Qed.

Lemma wire_total_app (xs ys : list event) :
  wire_total (xs ++ ys) = wire_total xs + wire_total ys.
Proof. unfold wire_total. rewrite datagrams_app, map_app. apply zsum_app. Qed.

(** The pause after a burst is not a datagram and announces nothing. *)
Lemma nap_silent (period : float) :
  let nap := if (0 <? period)%float then [Sleep period] else [] in
  datagrams nap = [] /\ burst_seqs nap = [] /\ wire_total nap = 0
  /\ sleeps nap = positive_periods [(0, period)].
Proof.
  cbv zeta. unfold positive_periods. cbn [map snd filter].
  destruct (0 <? period)%float; repeat split.
Qed.

(** X17. Bursts below 24 bytes are invisible to the loop: a run over a
    queue is the run over the queue without them, with the same events, the
    same sequence numbers and the same pauses. *)
Theorem pump_skips (queue : list Trace.burst) :
  forall (burst_seq bursts_sent : Z) (tick : nat),
  pump queue burst_seq bursts_sent tick
  = pump (eligible queue) burst_seq bursts_sent tick.
Proof.
  induction queue as [|[burst_size period] rest IH];
    intros burst_seq bursts_sent tick; [reflexivity|].
  destruct (burst_size <? Fragmenter.SEQTS_SIZE_FRAG_HEADER_LEN) eqn:Hsize.
  - rewrite eligible_cons_small by exact Hsize.
    cbn [Sender.pump]. rewrite Hsize. apply IH.
  - rewrite eligible_cons_large by exact Hsize.
    cbn [Sender.pump]. rewrite Hsize.
    destruct (send_burst burst_size burst_seq tick) as [sent [tick'|e]];
      [|reflexivity].
    rewrite IH. reflexivity.
Qed.

(** Whatever the outcome of the loop: the sizes of the datagrams, and the
    numbering of the bursts. *)
Lemma pump_any (queue : list Trace.burst) :
  forall (burst_seq bursts_sent : Z) (tick : nat) (events : list event)
         (r : result error unit),
  pump queue burst_seq bursts_sent tick = (events, r) ->
  Forall (fun d => 24 <= Z.of_nat (List.length d) <= fragment_size)
         (datagrams events)
  /\ burst_seqs events
     = count_from burst_seq (List.length (burst_seqs events)).
Proof.
  induction queue as [|[burst_size period] rest IH];
    intros burst_seq bursts_sent tick events r Hrun.
  - cbn [Sender.pump] in Hrun. assert (events = []) by congruence. subst.
    split; [constructor | reflexivity].
  - cbn [Sender.pump] in Hrun.
    destruct (burst_size <? Fragmenter.SEQTS_SIZE_FRAG_HEADER_LEN);
      [exact (IH _ _ _ _ _ Hrun)|].
    destruct (send_burst burst_size burst_seq tick) as [sent r1] eqn:Hsent.
    destruct (send_burst_any _ _ _ _ _ Hsent) as (Hsizes & Hseqs & _).
    assert (Hone : burst_seqs sent
                   = count_from burst_seq (List.length (burst_seqs sent))).
    { destruct Hseqs as [-> | ->]; [reflexivity|].
      cbn [List.length]. rewrite count_from_succ. reflexivity. }
    destruct r1 as [tick'|e].
    + destruct (budget_reached max_bursts (bursts_sent + 1)).
      * assert (events = sent) by congruence. subst. split; assumption.
      * destruct (pump rest (burst_seq + 1) (bursts_sent + 1) tick')
          as [later r2] eqn:Hlater.
        destruct (IH _ _ _ _ _ Hlater) as (Hsizes' & Hseqs').
        destruct (nap_silent period) as (Hnap1 & Hnap2 & _ & _).
        cbv zeta in Hnap1, Hnap2.
        assert (events = sent
                         ++ (if (0 <? period)%float then [Sleep period] else [])
                         ++ later) by congruence.
        subst events.
        rewrite !datagrams_app, !burst_seqs_app, Hnap1, Hnap2. cbn [app].
        split; [apply Forall_app; split; assumption|].
        destruct (send_burst_spec _ _ _ _ _ Hsent)
          as [(e & _ & _ & Hr)|(bp & frags & k & _ & _ & _ & Hseq1 & _)];
          [discriminate|].
        rewrite Hseq1. cbn [app List.length].
        rewrite count_from_succ, <- Hseqs'. reflexivity.
    + assert (events = sent) by congruence. subst. split; assumption.
Qed.

(** A completed run without a budget. *)
Lemma pump_unbounded (queue : list Trace.burst) :
  max_bursts = None ->
  forall (burst_seq bursts_sent : Z) (tick : nat) (events : list event),
  pump queue burst_seq bursts_sent tick = (events, Ok tt) ->
  wire_total events = zsum (map fst (eligible queue))
  /\ sleeps events = positive_periods (eligible queue)
  /\ List.length (burst_seqs events) = List.length (eligible queue).
Proof.
  intros Hnone.
  induction queue as [|[burst_size period] rest IH];
    intros burst_seq bursts_sent tick events Hrun.
  - cbn [Sender.pump] in Hrun. assert (events = []) by congruence. subst.
    repeat split.
  - cbn [Sender.pump] in Hrun.
    destruct (burst_size <? Fragmenter.SEQTS_SIZE_FRAG_HEADER_LEN) eqn:Hsize.
    { rewrite eligible_cons_small by exact Hsize. exact (IH _ _ _ _ Hrun). }
    rewrite eligible_cons_large by exact Hsize.
    destruct (send_burst burst_size burst_seq tick) as [sent [tick'|e]]
      eqn:Hsent; [|discriminate].
    replace (budget_reached max_bursts (bursts_sent + 1)) with false in Hrun
      by (unfold budget_reached; rewrite Hnone; reflexivity).
    destruct (pump rest (burst_seq + 1) (bursts_sent + 1) tick')
      as [later r2] eqn:Hlater.
    assert (r2 = Ok tt) by congruence. subst r2.
    destruct (IH _ _ _ _ Hlater) as (Hwire & Hsleeps & Hcount).
    destruct (send_burst_done _ _ _ _ _ Hsent)
      as (_ & Hwire1 & Hseq1 & Hsleep1).
    destruct (nap_silent period) as (_ & Hnap2 & Hnap3 & Hnap4).
    cbv zeta in Hnap2, Hnap3, Hnap4.
    assert (events = sent
                     ++ (if (0 <? period)%float then [Sleep period] else [])
                     ++ later) by congruence.
    subst events.
    rewrite !wire_total_app, !sleeps_app, !burst_seqs_app.
    rewrite Hwire1, Hnap3, Hwire, Hsleep1, Hnap4, Hsleeps, Hseq1, Hnap2.
    cbn [map fst app List.length]. unfold zsum. cbn [fold_right].
    split; [lia|]. split; [|rewrite Hcount; reflexivity].
    unfold positive_periods. cbn [map snd filter].
    destruct (0 <? period)%float; reflexivity.
Qed.

(** A completed run with a budget of [m] bursts. *)
Lemma pump_budget (m : Z) (queue : list Trace.burst) :
  max_bursts = Some m ->
  forall (burst_seq bursts_sent : Z) (tick : nat) (events : list event),
  pump queue burst_seq bursts_sent tick = (events, Ok tt) ->
  Z.of_nat (List.length (burst_seqs events))
  = Z.min (Z.of_nat (List.length (eligible queue)))
          (Z.max 1 (m - bursts_sent)).
Proof.
  intros Hsome.
  induction queue as [|[burst_size period] rest IH];
    intros burst_seq bursts_sent tick events Hrun.
  - cbn [Sender.pump] in Hrun. assert (events = []) by congruence. subst.
    cbn. lia.
  - cbn [Sender.pump] in Hrun.
    destruct (burst_size <? Fragmenter.SEQTS_SIZE_FRAG_HEADER_LEN) eqn:Hsize.
    { rewrite eligible_cons_small by exact Hsize. exact (IH _ _ _ _ Hrun). }
    rewrite eligible_cons_large by exact Hsize.
    destruct (send_burst burst_size burst_seq tick) as [sent [tick'|e]]
      eqn:Hsent; [|discriminate].
    destruct (send_burst_done _ _ _ _ _ Hsent) as (_ & _ & Hseq1 & _).
    replace (budget_reached max_bursts (bursts_sent + 1))
      with (m <=? bursts_sent + 1) in Hrun
      by (unfold budget_reached; rewrite Hsome; reflexivity).
    destruct (m <=? bursts_sent + 1) eqn:Hreached;
      [apply Z.leb_le in Hreached | apply Z.leb_gt in Hreached].
    + assert (events = sent) by congruence. subst.
      rewrite Hseq1. cbn [List.length]. lia.
    + destruct (pump rest (burst_seq + 1) (bursts_sent + 1) tick')
        as [later r2] eqn:Hlater.
      assert (r2 = Ok tt) by congruence. subst r2.
      pose proof (IH _ _ _ _ Hlater) as Hcount.
      destruct (nap_silent period) as (_ & Hnap2 & _ & _).
      cbv zeta in Hnap2.
      assert (events = sent
                       ++ (if (0 <? period)%float then [Sleep period] else [])
                       ++ later) by congruence.
      subst events.
      rewrite !burst_seqs_app, Hseq1, Hnap2. cbn [app List.length]. lia.
Qed.

(** X18. The datagrams of a burst that was sent: the burst was fragmented,
    and the datagrams are, in order, one per fragment, its 24-byte header
    (fragment index from 0, fragment count, burst payload, burst sequence
    number, and the clock reading taken for the fragment) followed by as many
    zero bytes as its payload length; one clock reading was taken for the
    burst and one per fragment. *)
Theorem send_burst_wire_format (burst_size burst_seq : Z) (tick tick' : nat)
    (events : list event) :
  send_burst burst_size burst_seq tick = (events, Ok tick') ->
  exists burst_payload fragments,
    Fragmenter.fragment_burst burst_size fragment_size
    = Ok (burst_payload, fragments)
    /\ datagrams events
       = burst_datagrams (Z.of_nat (List.length fragments)) burst_payload
           burst_seq 0 (S tick) fragments
    /\ burst_seqs events = [burst_seq]
    /\ tick' = (S tick + List.length fragments)%nat.
Proof.
  intros Hrun.
  destruct (send_burst_spec _ _ _ _ _ Hrun)
    as [(e & _ & _ & Hr)|(bp & frags & k & Hfrag & _ & Hdata & Hseqs
                          & _ & Hok & _)]; [discriminate|].
  destruct (Hok tick' eq_refl) as [-> ->]. rewrite firstn_all in Hdata.
  exists bp, frags. repeat split; assumption.
Qed.

(** X19. Whatever the outcome of a run, every datagram it sent is at least
    24 bytes and at most the fragment size. *)
Theorem pump_datagram_bounds (queue : list Trace.burst)
    (burst_seq bursts_sent : Z) (tick : nat) (events : list event)
    (r : result error unit) :
  pump queue burst_seq bursts_sent tick = (events, r) ->
  Forall (fun d => 24 <= Z.of_nat (List.length d) <= fragment_size)
         (datagrams events).
Proof. intros Hrun. apply (pump_any _ _ _ _ _ _ Hrun). Qed.

(** X20. Whatever the outcome of a run, the bursts it announced carry
    consecutive sequence numbers from the initial one on (from 0 in
    [main]). *)
Theorem pump_burst_numbering (queue : list Trace.burst)
    (burst_seq bursts_sent : Z) (tick : nat) (events : list event)
    (r : result error unit) :
  pump queue burst_seq bursts_sent tick = (events, r) ->
  burst_seqs events = count_from burst_seq (List.length (burst_seqs events)).
Proof. intros Hrun. apply (pump_any _ _ _ _ _ _ Hrun). Qed.

(** X21. A run without a budget that completes has sent every burst of at
    least 24 bytes, and the bytes it put on the wire, headers included, are
    the sum of their sizes. *)
Theorem pump_wire_conservation (queue : list Trace.burst)
    (burst_seq bursts_sent : Z) (tick : nat) (events : list event) :
  max_bursts = None ->
  pump queue burst_seq bursts_sent tick = (events, Ok tt) ->
  wire_total events = zsum (map fst (eligible queue))
  /\ List.length (burst_seqs events) = List.length (eligible queue).
Proof.
  intros Hnone Hrun.
  destruct (pump_unbounded queue Hnone _ _ _ _ Hrun) as (Hwire & _ & Hcount).
  split; assumption.
Qed.


(** X23. A run with a budget of [m] bursts that completes has sent as many
    bursts as there are of at least 24 bytes, up to the budget left, but at
    least one when there is one: the budget is tested after a burst is sent,
    so a budget of zero or less still sends one burst. *)
Theorem pump_budget_count (m : Z) (queue : list Trace.burst)
    (burst_seq bursts_sent : Z) (tick : nat) (events : list event) :
  max_bursts = Some m ->
  pump queue burst_seq bursts_sent tick = (events, Ok tt) ->
  Z.of_nat (List.length (burst_seqs events))
  = Z.min (Z.of_nat (List.length (eligible queue)))
          (Z.max 1 (m - bursts_sent)).
Proof. intros Hsome Hrun. exact (pump_budget m queue Hsome _ _ _ _ Hrun). Qed.

(** X24. A burst of more than 65535 fragments is announced but not sent:
    the fragment count does not fit the 16-bit field, so the header of the
    first fragment cannot be built, and no datagram leaves. *)
Theorem send_burst_too_many_fragments
    (burst_size burst_seq burst_payload : Z) (fragments : list Z)
    (tick : nat) :
  Fragmenter.fragment_burst burst_size fragment_size
  = Ok (burst_payload, fragments) ->
  65535 * fragment_size < burst_size ->
  send_burst burst_size burst_seq tick
  = ([BurstTx burst_seq burst_payload (Z.of_nat (List.length fragments))
        (clock tick)],
     Raise (HeaderError Codec.StructError)).
Proof.
  intros Hfrag Hbig.
  destruct (fragment_burst_sound _ _ _ _ Hfrag)
    as (HB & HF & Hall & Hsum & Htotal & Hcount).
  assert (Hnonneg : Forall (fun p => 0 <= p) fragments).
  { eapply Forall_impl; [|exact Hall]. cbv beta. intros p Hp. lia. }
  pose proof (zsum_nonneg fragments Hnonneg) as Hpayload.
  assert (Hmany : 65536 <= Z.of_nat (List.length fragments)).
  { rewrite Hcount. apply Z.div_le_lower_bound; lia. }
  unfold Sender.send_burst. rewrite Hfrag. unfold bytearray.
  replace (burst_payload <? 0) with false by (symmetry; apply Z.ltb_ge; lia).
  destruct fragments as [|p rest]; [cbn [List.length] in Hmany; lia|].
  cbn [Sender.send_fragments].
  destruct (Codec.build_header (clock (S tick)) 0
              (Z.of_nat (List.length (p :: rest))) burst_payload burst_seq)
    as [[header ts]|[]] eqn:Hhead; [|reflexivity].
  exfalso.
  destruct (build_header_inv _ _ _ _ _ _ _ Hhead) as ((_ & Hn & _) & _).
  change (2 ^ 16) with 65536 in Hn. lia.
Qed.

End SenderFacts.

(** ** The sending loop on concrete inputs *)

Lemma send_burst_wire_format_witness :
  exists burst_payload fragments,
    Fragmenter.fragment_burst 100 48 = Ok (burst_payload, fragments)
    /\ Sender.datagrams (fst (Sender.send_burst Sender.wall_clock 48 100 7 0))
       = Sender.burst_datagrams Sender.wall_clock
           (Z.of_nat (List.length fragments)) burst_payload 7 0 1 fragments
    /\ Sender.burst_seqs (fst (Sender.send_burst Sender.wall_clock 48 100 7 0))
       = [7]
    /\ 4%nat = (1 + List.length fragments)%nat.
Proof.
  apply (send_burst_wire_format Sender.wall_clock 48 100 7 0 4).
  vm_compute. reflexivity.
Defined.

Lemma pump_datagram_bounds_witness :
  Forall (fun d => 24 <= Z.of_nat (List.length d) <= 48)
    (Sender.datagrams
       (fst (Sender.pump Sender.wall_clock 48 None
               [(100, 0.02%float); (10, 0.5%float); (60, 0%float)] 0 0 0))).
Proof.
  apply (pump_datagram_bounds Sender.wall_clock 48 None
           [(100, 0.02%float); (10, 0.5%float); (60, 0%float)] 0 0 0%nat _
           (Ok tt)).
  vm_compute. reflexivity.
Defined.

Lemma pump_burst_numbering_witness :
  Sender.burst_seqs
    (fst (Sender.pump Sender.wall_clock 48 None
            [(100, 0.02%float); (10, 0.5%float); (60, 0%float)] 0 0 0))
  = Sender.count_from 0
      (List.length
         (Sender.burst_seqs
            (fst (Sender.pump Sender.wall_clock 48 None
                    [(100, 0.02%float); (10, 0.5%float); (60, 0%float)]
                    0 0 0)))).
Proof.
  apply (pump_burst_numbering Sender.wall_clock 48 None
           [(100, 0.02%float); (10, 0.5%float); (60, 0%float)] 0 0 0%nat _
           (Ok tt)).
  vm_compute. reflexivity.
Defined.

Lemma pump_wire_conservation_witness :
  Sender.wire_total
    (fst (Sender.pump Sender.wall_clock 48 None
            [(100, 0.02%float); (10, 0.5%float); (60, 0%float)] 0 0 0))
  = zsum (map fst (Sender.eligible
                     [(100, 0.02%float); (10, 0.5%float); (60, 0%float)]))
  /\ List.length
       (Sender.burst_seqs
          (fst (Sender.pump Sender.wall_clock 48 None
                  [(100, 0.02%float); (10, 0.5%float); (60, 0%float)] 0 0 0)))
     = List.length (Sender.eligible
                      [(100, 0.02%float); (10, 0.5%float); (60, 0%float)]).
Proof.
  apply (pump_wire_conservation Sender.wall_clock 48 None
           [(100, 0.02%float); (10, 0.5%float); (60, 0%float)] 0 0 0%nat).
  - reflexivity.
  - vm_compute. reflexivity.
Defined.


Lemma pump_budget_count_witness :
  Z.of_nat
    (List.length
       (Sender.burst_seqs
          (fst (Sender.pump Sender.wall_clock 48 (Some 0)
                  [(100, 0.02%float); (10, 0.5%float); (60, 0%float)] 0 0 0))))
  = Z.min (Z.of_nat (List.length
                       (Sender.eligible
                          [(100, 0.02%float); (10, 0.5%float); (60, 0%float)])))
          (Z.max 1 (0 - 0)).
Proof.
  apply (pump_budget_count Sender.wall_clock 48 (Some 0) 0
           [(100, 0.02%float); (10, 0.5%float); (60, 0%float)] 0 0 0%nat).
  - reflexivity.
  - vm_compute. reflexivity.
Defined.

Lemma send_burst_too_many_fragments_witness :
  Sender.send_burst Sender.wall_clock 24 1572864 0 0
  = ([Sender.BurstTx 0 0
        (Z.of_nat (List.length (repeat 0 (Z.to_nat 65535) ++ [0])))
        (Sender.wall_clock 0)],
     Raise (Sender.HeaderError Codec.StructError)).
Proof.
  apply (send_burst_too_many_fragments Sender.wall_clock 24 1572864 0 0
           (repeat 0 (Z.to_nat 65535) ++ [0]) 0).
  - rewrite fragment_burst_cases by lia. cbv zeta.
    change (1572864 / 24) with 65536. change (1572864 mod 24) with 0.
    change (0 <? 65536) with true. change ((0 <? 0) && (0 <? 24)) with false.
    change (0 =? 0) with true. cbv iota.
    change (65536 - 1) with 65535. change (24 - 24) with 0.
    change (1572864 - 24 * 65536) with 0. reflexivity.
  - reflexivity.
Defined.

(** A budget of zero sends the first burst and stops without pausing. *)
Example pump_budget_zero :
  Sender.burst_seqs
    (fst (Sender.pump Sender.wall_clock 48 (Some 0)
            [(10, 0.5%float); (100, 0.02%float); (60, 0%float)] 0 0 0)) = [0]
  /\ Sender.sleeps
       (fst (Sender.pump Sender.wall_clock 48 (Some 0)
               [(10, 0.5%float); (100, 0.02%float); (60, 0%float)] 0 0 0)) = [].
Proof. split; vm_compute; reflexivity. Qed.

(** * The trace generator and the sending loop together *)

Section MainFacts.

#[local] Open Scope float_scope.

Variable py_int : string -> option Z.
Variable py_float : string -> option float.
Variable clock : nat -> Z.
Variable fragment_size : Z.


End MainFacts.


Lemma build_header_injective_witness :
  1 = 1 /\ 3 = 3 /\ 2428 = 2428 /\ 7 = 7
  /\ 1700000000000000000 = 1700000000000000000.
Proof.
  apply (build_header_injective
           1700000000000000000 1 3 2428 7 1700000000000000000 1 3 2428 7
           (Sender.wire_header 1700000000000000000 1 3 2428 7));
    vm_compute; reflexivity.
Defined.
